(** * Job polling and lifecycle tracking of the backtest dashboard

    A shallow embedding of the job-status panel of the web frontend
    ([components/BacktestJobStatus.tsx]) and of the polling helper of the
    API client ([services/api.ts], [pollJobStatus]), together with the
    properties of the job tracker that the specification states.

    The component keeps four pieces of React state: the displayed list
    [jobs], the flags [loading] and [error], and the set [pollingJobs] of
    ids with an individual poll loop.  Every callback of the component is
    modelled as a function from the state before to the state after and
    the list of effects it issues (HTTP requests, poll loops started,
    console output).  An asynchronous function is cut at its [await]: the
    part up to the request, and the part that runs when the answer of the
    backend, an argument, arrives. *)

From Stdlib Require Import ZArith String List Floats.PrimFloat.
From stdpp Require Import base decidable list gmap strings.

#[local] Set Warnings "-clear-no-such-hyp".

Local Open Scope Z_scope.
Local Open Scope string_scope.
Local Open Scope list_scope.

(** ** Data model ([services/api.ts]) *)

(** [status: 'pending' | 'running' | 'completed' | 'failed'] *)
Inductive Status : Type :=
| pending
| running
| completed
| failed.

#[global] Instance Status_eq_dec : EqDecision Status.
Proof. solve_decision. Defined.

(** [Record<string, unknown>]: the strategy parameters are JSON values
    that the panel never inspects. *)
#[local] Unset Elimination Schemes.
Inductive Json : Type :=
| JNull
| JBool (b : bool)
| JNumber (x : float)
| JString (s : string)
| JArray (xs : list Json)
| JObject (fields : list (string * Json)).
#[local] Set Elimination Schemes.

(** [interface BacktestJob]; an optional field [f?: T] is an [option T]. *)
Record BacktestJob : Type := mkJob {
  id : Z;
  created_at : string;
  updated_at : option string;
  status : Status;
  error_message : option string;
  strategy_name : string;
  strategy_params : list (string * Json);
  symbol : string;
  interval : string;
  start_date : option string;
  end_date : option string;
  initial_capital : float;
  take_profit_pct : option float;
  stop_loss_pct : option float;
  backtest_run_id : option Z
}.

(** [job.status === 'pending' || job.status === 'running'] *)
Definition isActive (job : BacktestJob) : bool :=
  bool_decide (status job = pending) || bool_decide (status job = running).

(** [job.status === 'completed' || job.status === 'failed'] *)
Definition isTerminal (job : BacktestJob) : bool :=
  bool_decide (status job = completed) || bool_decide (status job = failed).

(** The answer of one HTTP request: the body, of the type that the API
    function declares, or the error that axios throws (network failure,
    error status). *)
Inductive Response (A : Type) : Type :=
| Fulfilled (body : A)
| Failed (err : string).
Arguments Fulfilled {A} body.
Arguments Failed {A} err.

(** ** [pollJobStatus] ([services/api.ts])

    The promise returned by [pollJobStatus] is driven by the answers of
    [fetchBacktestJob]; [checkStatus] consumes them one at a time.  The
    trace records what the loop does: a request for the job, or a
    [setTimeout] of the polling interval. *)
Inductive PollEvent : Type :=
| GetJob (jobId : Z)
| SetTimeout (ms : Z).

#[global] Instance PollEvent_eq_dec : EqDecision PollEvent.
Proof. solve_decision. Defined.

(** The state of the promise once the given answers have arrived. *)
Inductive Promise : Type :=
| Resolved (job : BacktestJob)
| Rejected (err : string)
| Unsettled.

(** [const checkStatus = async () => { try { const job = await
    fetchBacktestJob(jobId); if (terminal) resolve(job); else
    setTimeout(checkStatus, interval); } catch (error) { reject(error); } }] *)
Fixpoint checkStatus (jobId : Z) (interval_ms : Z)
    (answers : list (Response BacktestJob)) : list PollEvent * Promise :=
  match answers with
  | [] => ([GetJob jobId], Unsettled)
  | Failed err :: _ => ([GetJob jobId], Rejected err)
  | Fulfilled job :: rest =>
      if isTerminal job then ([GetJob jobId], Resolved job)
      else
        let '(trace, p) := checkStatus jobId interval_ms rest in
        (GetJob jobId :: SetTimeout interval_ms :: trace, p)
  end.

(** [pollJobStatus(jobId, interval = 2000)] *)
Definition default_interval : Z := 2000.

Definition pollJobStatus (jobId : Z) (answers : list (Response BacktestJob))
    : list PollEvent * Promise :=
  checkStatus jobId default_interval answers.

(** The number of answers after which the loop re-arms its timer: the
    leading answers that carry a pending or running record. *)
Fixpoint rearmed (answers : list (Response BacktestJob)) : nat :=
  match answers with
  | Fulfilled job :: rest => if isTerminal job then 0 else S (rearmed rest)
  | _ => 0
  end.

(** The requests in a trace. *)
Definition isGetJob (e : PollEvent) : bool :=
  match e with GetJob _ => true | SetTimeout _ => false end.

Definition requests (trace : list PollEvent) : nat :=
  length (List.filter isGetJob trace).

(** ** The component [BacktestJobStatus] *)

(** [useState]: [jobs], [loading], [error], [pollingJobs]. *)
Record State : Type := mkState {
  jobs : list BacktestJob;
  loading : bool;
  error : option string;
  pollingJobs : gset Z
}.

Definition setJobs (v : list BacktestJob) (st : State) : State :=
  mkState v (loading st) (error st) (pollingJobs st).
Definition setLoading (v : bool) (st : State) : State :=
  mkState (jobs st) v (error st) (pollingJobs st).
Definition setError (v : option string) (st : State) : State :=
  mkState (jobs st) (loading st) v (pollingJobs st).
Definition setPollingJobs (v : gset Z) (st : State) : State :=
  mkState (jobs st) (loading st) (error st) v.

(** The state on mount. *)
Definition initial : State := mkState [] true None ∅.

(** What a callback does besides updating the state. *)
Inductive Effect : Type :=
| FetchBacktestJobs                       (* GET /backtest-jobs/ *)
| StartPoll (jobId : Z)                   (* pollJobStatus(job.id) *)
| ConsoleError (err : string)             (* console.error(err) *)
| PollingFailed (jobId : Z) (err : string).
                        (* console.error(`Polling failed for job ${id}`, err) *)

#[global] Instance Effect_eq_dec : EqDecision Effect.
Proof. solve_decision. Defined.

#[global] Instance StartPoll_inj : Inj (=) (=) StartPoll.
Proof. by intros i1 i2 [= ->]. Qed.

(** [showCompleted ? allJobs : allJobs.filter(job => pending || running)] *)
Definition filteredJobs (showCompleted : bool) (allJobs : list BacktestJob)
    : list BacktestJob :=
  if showCompleted then allJobs else filter (λ job, isActive job) allJobs.

(** One step after another: the second runs on the state the first left. *)
Definition andThen (r : State * list Effect) (k : State → State * list Effect)
    : State * list Effect :=
  let '(st, out) := k (fst r) in (st, snd r ++ out).

(** [loadJobs] up to its [await]: [setLoading(true)] and the request. *)
Definition loadJobs_call (st : State) : State * list Effect :=
  (setLoading true st, [FetchBacktestJobs]).

(** [loadJobs] from the answer on: the rest of the [try] body or the
    [catch] body, then [finally]. *)
Definition loadJobs_settle (showCompleted : bool)
    (answer : Response (list BacktestJob)) (st : State) : State * list Effect :=
  match answer with
  | Fulfilled allJobs =>
      let st := setJobs (filteredJobs showCompleted allJobs) st in
      let st := setError None st in
      (setLoading false st, [])
  | Failed err =>
      let st := setError (Some "Failed to load backtest jobs") st in
      (setLoading false st, [ConsoleError err])
  end.

(** A whole call of [loadJobs], when nothing else happens before the
    answer arrives. *)
Definition loadJobs (showCompleted : bool)
    (answer : Response (list BacktestJob)) (st : State) : State * list Effect :=
  andThen (loadJobs_call st) (loadJobs_settle showCompleted answer).

(** [prev.map(j => j.id === updatedJob.id ? updatedJob : j)] *)
Definition mergeJob (updatedJob : BacktestJob) (prev : list BacktestJob)
    : list BacktestJob :=
  (λ j, if bool_decide (id j = id updatedJob) then updatedJob else j) <$> prev.

(** The [.then] callback of a poll: merge the record, and drop the id from
    the polling set when the record is completed or failed. *)
Definition onPollResolved (updatedJob : BacktestJob) (st : State) : State :=
  let st := setJobs (mergeJob updatedJob (jobs st)) st in
  if isTerminal updatedJob
  then setPollingJobs (pollingJobs st ∖ {[id updatedJob]}) st
  else st.

(** The [.catch] callback of a poll: [console.error] and nothing else. *)
Definition onPollRejected (jobId : Z) (err : string) (st : State)
    : State * list Effect :=
  (st, [PollingFailed jobId err]).

(** The locals of the polling effect while its two [forEach] loops run. *)
Record PollLoop : Type := mkLoop {
  newPollingSet : gset Z;
  changed : bool;
  started : list Z
}.

(** Body of [pendingRunningJobs.forEach]: the test reads the [pollingJobs]
    of the render, not [newPollingSet]. *)
Definition startStep (polling : gset Z) (acc : PollLoop) (job : BacktestJob)
    : PollLoop :=
  if bool_decide (id job ∈ polling) then acc
  else mkLoop ({[id job]} ∪ newPollingSet acc) true (started acc ++ [id job]).

(** [jobs.find(j => j.id === jobId)] *)
Definition findJob (jobId : Z) (l : list BacktestJob) : option BacktestJob :=
  find (λ j, bool_decide (id j = jobId)) l.

(** [!job || (job.status !== 'pending' && job.status !== 'running')] *)
Definition notPolled (jobId : Z) (l : list BacktestJob) : bool :=
  match findJob jobId l with
  | None => true
  | Some job => negb (isActive job)
  end.

(** Body of [pollingJobs.forEach]. *)
Definition dropStep (l : list BacktestJob) (acc : PollLoop) (jobId : Z)
    : PollLoop :=
  if notPolled jobId l
  then mkLoop (newPollingSet acc ∖ {[jobId]}) true (started acc)
  else acc.

(** The effect on [[jobs]]: start a poll for every pending or running job
    that is not in the polling set, drop the ids that are no longer pending
    or running, and store the new set when something changed. *)
Definition pollingEffect (st : State) : State * list Effect :=
  let pendingRunningJobs := filter (λ job, isActive job) (jobs st) in
  let acc := mkLoop (pollingJobs st) false [] in
  let acc := foldl (startStep (pollingJobs st)) acc pendingRunningJobs in
  let acc := foldl (dropStep (jobs st)) acc (elements (pollingJobs st)) in
  (if changed acc then setPollingJobs (newPollingSet acc) st else st,
   StartPoll <$> started acc).

(** The answer of a load arrives: the rest of [loadJobs], then the
    [[jobs]] effect, which React runs when [setJobs] was called, that is
    when the request succeeded. *)
Definition loadSettled (showCompleted : bool)
    (answer : Response (list BacktestJob)) (st : State) : State * list Effect :=
  match answer with
  | Fulfilled _ =>
      andThen (loadJobs_settle showCompleted answer st) pollingEffect
  | Failed _ => loadJobs_settle showCompleted answer st
  end.

(** One tick of the [setInterval] callback: [if (activeJobs.length > 0)
    loadJobs()], up to the [await] of that call. *)
Definition intervalTick (st : State) : State * list Effect :=
  let activeJobs := filter (λ job, isActive job) (jobs st) in
  if bool_decide (0 < length activeJobs)%nat
  then loadJobs_call st
  else (st, []).

(** A poll resolves: the [.then] callback, then the [[jobs]] effect. *)
Definition pollResolved (updatedJob : BacktestJob) (st : State)
    : State * list Effect :=
  pollingEffect (onPollResolved updatedJob st).

(** ** Notions used to state the properties *)

(** The ids of the given jobs that are not in the polling set. *)
Definition untracked (polling : gset Z) (l : list BacktestJob) : list Z :=
  filter (λ i, i ∉ polling) (id <$> l).

(** The ids of the polling set that the second loop drops. *)
Definition dropped (l : list BacktestJob) (ids : list Z) : list Z :=
  filter (λ i, notPolled i l) ids.

(** Ids are unique in a list of jobs. *)
Definition uniqueIds (l : list BacktestJob) : Prop := NoDup (id <$> l).

#[global] Instance uniqueIds_dec l : Decision (uniqueIds l).
Proof. unfold uniqueIds. apply _. Defined.

(** The polling set holds exactly the ids of the displayed pending or
    running jobs. *)
Definition tracksActive (st : State) : Prop :=
  ∀ i, i ∈ pollingJobs st ↔ ∃ j, j ∈ jobs st ∧ id j = i ∧ isActive j = true.

(** Recency of two records.  The component never compares [updated_at];
    this order is only used to say which of two records the backend
    produced first.  Timestamps are ISO-8601 strings of one format, which
    compare as strings. *)
Definition earlier (a b : BacktestJob) : bool :=
  match updated_at a, updated_at b with
  | Some x, Some y => String.ltb x y
  | _, _ => false
  end.

(** How many times the effects start a poll for the id. *)
Definition pollsStarted (i : Z) (out : list Effect) : nat :=
  count_occ Effect_eq_dec out (StartPoll i).

(** ** Runs of the component *)

(** What can happen to the mounted component, whose first load was
    requested on mount: the interval fires, [showCompleted] changes and
    the first effect calls [loadJobs] again, the answer of a load arrives
    (the load was called with the given [showCompleted]), a poll promise
    resolves or rejects. *)
Inductive Event : Type :=
| Tick
| ShowCompletedChanges
| LoadSettles (showCompleted : bool) (answer : Response (list BacktestJob))
| PollResolves (updatedJob : BacktestJob)
| PollRejects (jobId : Z) (err : string).

Definition step (st : State) (ev : Event) : State * list Effect :=
  match ev with
  | Tick => intervalTick st
  | ShowCompletedChanges => loadJobs_call st
  | LoadSettles showCompleted answer => loadSettled showCompleted answer st
  | PollResolves updatedJob => pollResolved updatedJob st
  | PollRejects jobId err => onPollRejected jobId err st
  end.

Definition run (evs : list Event) : State :=
  foldl (λ st ev, fst (step st ev)) initial evs.

(** The backend reports every job once, and a poll promise resolves with a
    completed or failed record only (see [checkStatus_resolved_terminal]). *)
Definition admissible (ev : Event) : Prop :=
  match ev with
  | LoadSettles _ (Fulfilled l) => uniqueIds l
  | PollResolves updatedJob => isTerminal updatedJob = true
  | _ => True
  end.

#[global] Instance admissible_dec ev : Decision (admissible ev).
Proof. destruct ev as [| |? [?|?]|?|? ?]; cbn; apply _. Defined.

(** The state between two events: unique ids in the displayed list and an
    exact polling set. *)
Definition settled (st : State) : Prop :=
  uniqueIds (jobs st) ∧ tracksActive st.

(** ** What the panel shows *)

(** The three outcomes of the render: the loading notice, the error
    notice, or the tables (each table only when it has rows, the second
    only with [showCompleted]) and the "No backtest jobs found." line. *)
Inductive View : Type :=
| LoadingView
| ErrorView (msg : string)
| TablesView (activeTable completedTable : option (list BacktestJob))
    (noJobs : bool).

Definition nonEmpty (l : list BacktestJob) : option (list BacktestJob) :=
  match l with [] => None | _ => Some l end.

(** [if (error)]: [null] and the empty string are falsy. *)
Definition truthy (v : option string) : option string :=
  match v with
  | Some EmptyString | None => None
  | Some msg => Some msg
  end.

Definition render (showCompleted : bool) (st : State) : View :=
  if loading st && bool_decide (length (jobs st) = 0%nat) then LoadingView
  else
    match truthy (error st) with
    | Some msg => ErrorView msg
    | None =>
        let activeJobs := filter (λ job, isActive job) (jobs st) in
        let completedJobs := filter (λ job, isTerminal job) (jobs st) in
        TablesView (nonEmpty activeJobs)
          (if showCompleted then nonEmpty completedJobs else None)
          (bool_decide (length (jobs st) = 0%nat))
    end.

(** ** Concrete records used in the examples *)

Definition sampleJob (i : Z) (s : Status) (u : option string)
    (e : option string) (r : option Z) : BacktestJob :=
  mkJob i "2025-01-01T10:00:00" u s e "sma_cross"
        [("fast", JNumber 10%float)] "BTCUSDT" "1h" None None
        10000%float None None r.

Definition job1_completed : BacktestJob :=
  sampleJob 1 completed (Some "2025-01-01T10:01:00") None (Some 3).
Definition job2_pending : BacktestJob :=
  sampleJob 2 pending (Some "2025-01-01T10:02:00") None None.
Definition job2_running : BacktestJob :=
  sampleJob 2 running (Some "2025-01-01T10:03:00") None None.
Definition job2_failed : BacktestJob :=
  sampleJob 2 failed (Some "2025-01-01T10:05:00") (Some "x") None.
Definition job42_pending : BacktestJob :=
  sampleJob 42 pending (Some "2025-01-01T10:00:00") None None.
Definition job42_running : BacktestJob :=
  sampleJob 42 running (Some "2025-01-01T10:00:02") None None.
Definition job42_completed : BacktestJob :=
  sampleJob 42 completed (Some "2025-01-01T10:00:04") None (Some 7).

(** Three jobs are listed; the poll of job 2 fails, job 42 is seen running
    by the next refresh and its poll resolves with the completed record. *)
Definition watch_run : list Event :=
  [LoadSettles true (Fulfilled [job1_completed; job2_pending; job42_pending]);
   PollRejects 2 "Network Error";
   Tick;
   LoadSettles true (Fulfilled [job1_completed; job2_pending; job42_running]);
   PollResolves job42_completed].

(** Job 42 is listed pending, completed jobs get hidden, job 42 is seen
    running by the next refresh, and its poll resolves with the completed
    record; nothing is left to watch. *)
Definition job42_run : list Event :=
  [LoadSettles true (Fulfilled [job1_completed; job42_pending]);
   ShowCompletedChanges;
   LoadSettles false (Fulfilled [job1_completed; job42_pending]);
   Tick;
   LoadSettles false (Fulfilled [job1_completed; job42_running]);
   PollResolves job42_completed].

(** Closed facts are settled by evaluating their decision procedure. *)
Ltac by_evaluation := apply (bool_decide_unpack _); vm_compute; exact I.

(** A record is not in a concrete list when it differs from each entry. *)
Ltac not_listed :=
  let H := fresh in
  vm_compute; intros H;
  repeat (apply elem_of_cons in H as [H|H]; [discriminate H|]);
  by apply elem_of_nil in H.

(** ** Sequences of events from any state *)

(** The state after the events, with everything they issued. *)
Definition runFrom (st : State) (evs : list Event) : State * list Effect :=
  foldl (λ r ev, andThen r (λ s, step s ev)) (st, []) evs.

(** The events that are the answer of a load. *)
Definition isLoadAnswer (ev : Event) : bool :=
  match ev with LoadSettles _ _ => true | _ => false end.

(** The rows of a table of the panel; a table that is not rendered has
    none. *)
Definition rows (table : option (list BacktestJob)) : list BacktestJob :=
  match table with Some l => l | None => [] end.

(** ** Status colours ([getStatusColor]) *)

(** The string a status has in a job record. *)
Definition statusName (s : Status) : string :=
  match s with
  | pending => "pending"
  | running => "running"
  | completed => "completed"
  | failed => "failed"
  end.

(** [switch (status) { case 'pending': return 'orange'; ... default:
    return 'gray'; }] *)
Definition getStatusColor (status : string) : string :=
  if bool_decide (status = "pending") then "orange"
  else if bool_decide (status = "running") then "blue"
  else if bool_decide (status = "completed") then "green"
  else if bool_decide (status = "failed") then "red"
  else "gray".

(** ** The form [BacktestConfigForm] ([components/BacktestConfigForm.tsx]) *)

(** One entry of [StrategyInfo.parameters]; a missing [default] is
    [undefined], a [null] one is [Some JNull]. *)
Module StrategyParameter.
Record t : Type := mk {
  name : string;
  type : string;
  default : option Json;
  description : option string
}.
End StrategyParameter.

(** [interface StrategyInfo] *)
Module StrategyInfo.
Record t : Type := mk {
  name : string;
  description : option string;
  parameters : list StrategyParameter.t
}.
End StrategyInfo.

(** [interface BacktestJobCreate]; the object [strategy_params] is a map
    from its keys to JSON values. *)
Module BacktestJobCreate.
Record t : Type := mk {
  strategy_name : string;
  strategy_params : gmap string Json;
  symbol : string;
  interval : string;
  start_date : option string;
  end_date : option string;
  initial_capital : float;
  take_profit_pct : option float;
  stop_loss_pct : option float
}.
End BacktestJobCreate.

Module ConfigForm.

(** The [useState] cells of the form. *)
Record State : Type := mkState {
  strategies : list StrategyInfo.t;
  loading : bool;
  error : option string;
  submitting : bool;
  strategyName : string;
  strategyParams : gmap string Json;
  symbol : string;
  interval : string;
  startDate : string;
  endDate : string;
  initialCapital : float;
  takeProfitPct : option float;
  stopLossPct : option float
}.

Definition setStrategies (v : list StrategyInfo.t) (st : State) : State :=
  mkState v (loading st) (error st) (submitting st) (strategyName st)
    (strategyParams st) (symbol st) (interval st) (startDate st) (endDate st)
    (initialCapital st) (takeProfitPct st) (stopLossPct st).
Definition setLoading (v : bool) (st : State) : State :=
  mkState (strategies st) v (error st) (submitting st) (strategyName st)
    (strategyParams st) (symbol st) (interval st) (startDate st) (endDate st)
    (initialCapital st) (takeProfitPct st) (stopLossPct st).
Definition setError (v : option string) (st : State) : State :=
  mkState (strategies st) (loading st) v (submitting st) (strategyName st)
    (strategyParams st) (symbol st) (interval st) (startDate st) (endDate st)
    (initialCapital st) (takeProfitPct st) (stopLossPct st).
Definition setSubmitting (v : bool) (st : State) : State :=
  mkState (strategies st) (loading st) (error st) v (strategyName st)
    (strategyParams st) (symbol st) (interval st) (startDate st) (endDate st)
    (initialCapital st) (takeProfitPct st) (stopLossPct st).
Definition setStrategyName (v : string) (st : State) : State :=
  mkState (strategies st) (loading st) (error st) (submitting st) v
    (strategyParams st) (symbol st) (interval st) (startDate st) (endDate st)
    (initialCapital st) (takeProfitPct st) (stopLossPct st).
Definition setStrategyParams (v : gmap string Json) (st : State) : State :=
  mkState (strategies st) (loading st) (error st) (submitting st)
    (strategyName st) v (symbol st) (interval st) (startDate st) (endDate st)
    (initialCapital st) (takeProfitPct st) (stopLossPct st).

(** The state on mount: [useState('')], [useState({})],
    [useState('BTCUSDT')], [useState('1d')], [useState(10000)],
    [useState(5)], [useState(3)]. *)
Definition initial : State :=
  mkState [] true None false EmptyString ∅ "BTCUSDT" "1d" EmptyString
    EmptyString 10000%float (Some 5%float) (Some 3%float).

(** What a callback of the form does besides updating the state. *)
Inductive Effect : Type :=
| FetchStrategies                               (* GET /strategies/ *)
| CreateBacktestJob (job : BacktestJobCreate.t) (* POST /backtest-jobs/ *)
| OnSuccess                                     (* onSuccess() *)
| Alert (msg : string)
| ConsoleError (err : string).

(** [const defaultParams = {}; parameters.forEach(param => { if
    (param.default !== undefined) defaultParams[param.name] =
    param.default; })], for parameter names that are ordinary property
    keys. *)
Definition defaultParams (parameters : list StrategyParameter.t)
    : gmap string Json :=
  foldl (λ acc param,
           match StrategyParameter.default param with
           | Some d => <[StrategyParameter.name param := d]> acc
           | None => acc
           end) ∅ parameters.

(** [strategies.find(s => s.name === name)] *)
Definition findStrategy (name : string) (l : list StrategyInfo.t)
    : option StrategyInfo.t :=
  find (λ s, bool_decide (StrategyInfo.name s = name)) l.

(** [const selectedStrategy = strategies.find(s => s.name ===
    strategyName)], whose parameters get an input each. *)
Definition selectedStrategy (st : State) : option StrategyInfo.t :=
  findStrategy (strategyName st) (strategies st).

(** [loadStrategies] from the answer of [fetchStrategies] on. *)
Definition loadStrategies_settle (answer : Response (list StrategyInfo.t))
    (st : State) : State * list Effect :=
  match answer with
  | Fulfilled data =>
      let st := setStrategies data st in
      let st :=
        match data with
        | first :: _ =>
            let st := setStrategyName (StrategyInfo.name first) st in
            setStrategyParams (defaultParams (StrategyInfo.parameters first))
              st
        | [] => st
        end in
      (setLoading false st, [])
  | Failed err =>
      let st := setError (Some "Failed to load strategies") st in
      (setLoading false st, [ConsoleError err])
  end.

(** [handleStrategyChange], with [name] the value of the select. *)
Definition handleStrategyChange (name : string) (st : State) : State :=
  let st := setStrategyName name st in
  match findStrategy name (strategies st) with
  | Some selected =>
      setStrategyParams (defaultParams (StrategyInfo.parameters selected)) st
  | None => st
  end.

(** [setStrategyParams(prev => ({ ...prev, [paramName]: value }))]: the
    value of a text input is a string. *)
Definition handleParamChange (paramName value : string) (st : State) : State :=
  setStrategyParams (<[paramName := JString value]> (strategyParams st)) st.

(** [x || undefined] for a string. *)
Definition orUndefined (x : string) : option string :=
  match x with EmptyString => None | _ => Some x end.

(** The object that [handleSubmit] builds from the fields. *)
Definition jobOf (st : State) : BacktestJobCreate.t :=
  BacktestJobCreate.mk (strategyName st) (strategyParams st) (symbol st)
    (interval st) (orUndefined (startDate st)) (orUndefined (endDate st))
    (initialCapital st) (takeProfitPct st) (stopLossPct st).

(** [handleSubmit] up to its [await]. *)
Definition handleSubmit_call (st : State) : State * list Effect :=
  let st := setSubmitting true st in
  let st := setError None st in
  (st, [CreateBacktestJob (jobOf st)]).

(** [handleSubmit] from the answer of [createBacktestJob] on; [onSuccess]
    tells whether the prop is given, and the callback is taken to
    return. *)
Definition handleSubmit_settle (onSuccess : bool)
    (answer : Response BacktestJob) (st : State) : State * list Effect :=
  match answer with
  | Fulfilled _ =>
      (setSubmitting false st,
       (if onSuccess then [OnSuccess] else []) ++
       [Alert "Backtest job created! It will run in the background."])
  | Failed err =>
      let st := setError (Some "Failed to create backtest job") st in
      (setSubmitting false st, [ConsoleError err])
  end.

(** A whole submission, when nothing else happens before the answer. *)
Definition handleSubmit (onSuccess : bool) (answer : Response BacktestJob)
    (st : State) : State * list Effect :=
  let '(st1, out1) := handleSubmit_call st in
  let '(st2, out2) := handleSubmit_settle onSuccess answer st1 in
  (st2, out1 ++ out2).

End ConfigForm.

(** Two strategies as the backend lists them. *)
Definition sma_cross : StrategyInfo.t :=
  StrategyInfo.mk "sma_cross" None
    [StrategyParameter.mk "fast" "int" (Some (JNumber 10%float)) None;
     StrategyParameter.mk "slow" "int" (Some (JNumber 30%float)) None;
     StrategyParameter.mk "note" "str" None None].
Definition rsi : StrategyInfo.t :=
  StrategyInfo.mk "rsi" (Some "Relative strength index")
    [StrategyParameter.mk "period" "int" (Some (JNumber 14%float)) None].

(** ** What the component has been shown *)

(** The statuses that the component has been handed: by the answer of a
    load, one for every job of the fetched list whatever [showCompleted],
    and by the result of a poll.  [seen] keeps the most recent status of
    every id, [listed] the ids of the most recent load that succeeded. *)
Record Observed : Type := mkObserved {
  seen : gmap Z Status;
  listed : gset Z
}.

Definition noObservation : Observed := mkObserved ∅ ∅.

Definition observeStep (o : Observed) (ev : Event) : Observed :=
  match ev with
  | LoadSettles _ (Fulfilled allJobs) =>
      mkObserved
        (foldl (λ m job, <[id job := status job]> m) (seen o) allJobs)
        (list_to_set (id <$> allJobs))
  | PollResolves updatedJob =>
      mkObserved (<[id updatedJob := status updatedJob]> (seen o)) (listed o)
  | _ => o
  end.

Definition observed (evs : list Event) : Observed :=
  foldl observeStep noObservation evs.

(** The most recently observed status of the id is pending or running. *)
Definition lastSeenActive (o : Observed) (i : Z) : bool :=
  match seen o !! i with
  | Some pending | Some running => true
  | _ => false
  end.

(** What ties the displayed list to the observations: a displayed record
    has a listed id and the status last seen for it, and a listed id last
    seen pending or running is displayed. *)
Definition displaysObserved (st : State) (o : Observed) : Prop :=
  (∀ j, j ∈ jobs st →
     id j ∈ listed o ∧ seen o !! id j = Some (status j)) ∧
  (∀ i, i ∈ listed o → lastSeenActive o i = true → i ∈ id <$> jobs st).

(** ** A load whose body is not what the type promises

    [fetchBacktestJobs] returns [response.data] as axios hands it over:
    any JSON value, and the text of a body that is not JSON, reaches
    [loadJobs] under the type [BacktestJob[]]. *)

(** The [jobs] cell when it may hold such a value. *)
Inductive JobsCell : Type :=
| JobList (l : list BacktestJob)
| Unchecked (data : Json).

(** The four cells of the component, with that [jobs] cell. *)
Record UncheckedState : Type := mkUnchecked {
  jobsCell : JobsCell;
  loadingCell : bool;
  errorCell : option string;
  pollingJobsCell : gset Z
}.

Definition unchecked (st : State) : UncheckedState :=
  mkUnchecked (JobList (jobs st)) (loading st) (error st) (pollingJobs st).

(** [job.status] for a JSON value: reading it throws on [null] ([None]),
    gives the last [status] member of an object, and is [undefined] for
    every other value. *)
Definition statusOf (v : Json) : option (option Json) :=
  match v with
  | JNull => None
  | JObject fields =>
      Some (last (omap (λ kv, if bool_decide (fst kv = "status")
                              then Some (snd kv) else None) fields))
  | _ => Some None
  end.

(** [job.status === 'pending' || job.status === 'running'] on a JSON
    value; [None] when it throws. *)
Definition isActiveJson (v : Json) : option bool :=
  match statusOf v with
  | None => None
  | Some (Some (JString s)) =>
      Some (bool_decide (s = "pending") || bool_decide (s = "running"))
  | Some _ => Some false
  end.

(** [xs.filter(job => ...)] on the elements of a JSON array; [None] when
    the callback throws. *)
Fixpoint filterActiveJson (xs : list Json) : option (list Json) :=
  match xs with
  | [] => Some []
  | x :: rest =>
      match isActiveJson x with
      | None => None
      | Some keep =>
          match filterActiveJson rest with
          | None => None
          | Some kept => Some (if keep then x :: kept else kept)
          end
      end
  end.

(** [showCompleted ? allJobs : allJobs.filter(...)] on a JSON value;
    [None] when it throws a [TypeError]: the value is not an array and has
    no [filter], or the callback throws. *)
Definition filteredUnchecked (showCompleted : bool) (data : Json)
    : option Json :=
  if showCompleted then Some data
  else
    match data with
    | JArray xs =>
        match filterActiveJson xs with
        | Some kept => Some (JArray kept)
        | None => None
        end
    | _ => None
    end.

(** [loadJobs] from the answer on, for a body of any shape: the [try] body
    stores the value, or its [TypeError] is caught like a failed
    request. *)
Definition loadJobs_settle_unchecked (showCompleted : bool) (data : Json)
    (st : State) : UncheckedState * list Effect :=
  match filteredUnchecked showCompleted data with
  | Some stored =>
      (mkUnchecked (Unchecked stored) false None (pollingJobs st), [])
  | None =>
      (mkUnchecked (JobList (jobs st)) false
         (Some "Failed to load backtest jobs") (pollingJobs st),
       [ConsoleError "TypeError"])
  end.

(** ** Status tests *)

Lemma isTerminal_not_active (job : BacktestJob) :
  isTerminal job = negb (isActive job).
Proof. unfold isTerminal, isActive. by destruct (status job). Qed.

Lemma isActive_true (job : BacktestJob) :
  isActive job = true ↔ status job = pending ∨ status job = running.
Proof.
  unfold isActive. destruct (status job); cbn; split; intros H;
    try done; try (by left); try (by right); by destruct H.
Qed.

Lemma isTerminal_true (job : BacktestJob) :
  isTerminal job = true ↔ status job = completed ∨ status job = failed.
Proof.
  unfold isTerminal. destruct (status job); cbn; split; intros H;
    try done; try (by left); try (by right); by destruct H.
Qed.

Lemma isTerminal_false_active (job : BacktestJob) :
  isTerminal job = false ↔ isActive job = true.
Proof. rewrite isTerminal_not_active. by destruct (isActive job). Qed.

(** ** The merge of a poll result *)

Section merge.
Implicit Types (u a b j : BacktestJob) (prev l : list BacktestJob).

Lemma mergeJob_length u prev : length (mergeJob u prev) = length prev.
Proof. unfold mergeJob. by rewrite length_fmap. Qed.

Lemma mergeJob_ids u prev : id <$> mergeJob u prev = id <$> prev.
Proof.
  unfold mergeJob. rewrite <- list_fmap_compose. apply list_fmap_ext.
  intros _ j _. cbn. by case_bool_decide.
Qed.

Lemma mergeJob_lookup u prev (n : nat) :
  mergeJob u prev !! n =
  (λ j, if bool_decide (id j = id u) then u else j) <$> prev !! n.
Proof. unfold mergeJob. apply list_lookup_fmap. Qed.

Lemma mergeJob_absent u prev : id u ∉ id <$> prev → mergeJob u prev = prev.
Proof.
  unfold mergeJob. induction prev as [|j prev IH]; [done|].
  rewrite !fmap_cons, not_elem_of_cons. intros [Hne Hrest].
  rewrite bool_decide_eq_false_2 by congruence. f_equal. by apply IH.
Qed.

Lemma mergeJob_elem u prev j :
  j ∈ mergeJob u prev →
  (j = u ∧ id u ∈ id <$> prev) ∨ (j ∈ prev ∧ id j ≠ id u).
Proof.
  unfold mergeJob. intros (k & -> & Hk)%list_elem_of_fmap.
  case_bool_decide as Hid.
  - left. split; [done|]. rewrite <- Hid. apply list_elem_of_fmap. eauto.
  - right. done.
Qed.

Lemma mergeJob_same_id_absorbs a b prev :
  id a = id b → mergeJob a (mergeJob b prev) = mergeJob a prev.
Proof.
  intros Hab. unfold mergeJob. rewrite <- list_fmap_compose.
  apply list_fmap_ext. intros _ j _. cbn.
  rewrite Hab. destruct (decide (id j = id b)) as [Hj|Hj].
  - rewrite !(bool_decide_eq_true_2 (id j = id b)) by done. cbn.
    by rewrite bool_decide_eq_true_2.
  - rewrite !(bool_decide_eq_false_2 (id j = id b)) by done. done.
Qed.

Lemma onPollResolved_jobs u st :
  jobs (onPollResolved u st) = mergeJob u (jobs st).
Proof. unfold onPollResolved. by destruct (isTerminal u). Qed.

Lemma onPollResolved_pollingJobs u st :
  pollingJobs (onPollResolved u st) =
  if isTerminal u then pollingJobs st ∖ {[id u]} else pollingJobs st.
Proof. unfold onPollResolved. by destruct (isTerminal u). Qed.
End merge.

(** ** The poll loop *)

Section poll.
Implicit Types (answers : list (Response BacktestJob)) (job : BacktestJob).

Lemma rearmed_le answers : (rearmed answers ≤ length answers)%nat.
Proof.
  induction answers as [|[job|err] rest IH]; cbn; [lia| |lia].
  destruct (isTerminal job); lia.
Qed.

Lemma checkStatus_trace jobId ms answers :
  fst (checkStatus jobId ms answers) =
  GetJob jobId ::
    mjoin (replicate (rearmed answers) [SetTimeout ms; GetJob jobId]).
Proof.
  induction answers as [|[job|err] rest IH]; cbn; [done| |done].
  destruct (isTerminal job); [done|].
  destruct (checkStatus jobId ms rest) as [trace p]. cbn in *.
  by rewrite IH.
Qed.

Lemma requests_rounds jobId ms (n : nat) :
  requests (GetJob jobId :: mjoin (replicate n [SetTimeout ms; GetJob jobId]))
  = S n.
Proof.
  unfold requests. cbn [List.filter isGetJob length]. f_equal.
  induction n as [|n IH]; [done|].
  cbn [replicate mjoin list_join app List.filter isGetJob length].
  f_equal. exact IH.
Qed.

Lemma checkStatus_requests jobId ms answers :
  requests (fst (checkStatus jobId ms answers)) = S (rearmed answers).
Proof. rewrite checkStatus_trace. apply requests_rounds. Qed.

Lemma checkStatus_resolved_terminal jobId ms answers job :
  snd (checkStatus jobId ms answers) = Resolved job → isTerminal job = true.
Proof.
  induction answers as [|[j|err] rest IH]; cbn; [done| |done].
  destruct (isTerminal j) eqn:Hj.
  - cbn. by intros [= <-].
  - destruct (checkStatus jobId ms rest) as [trace p]. exact IH.
Qed.

Lemma checkStatus_resolved_iff jobId ms answers job :
  snd (checkStatus jobId ms answers) = Resolved job ↔
  ∃ before after,
    answers = (Fulfilled <$> before) ++ Fulfilled job :: after ∧
    Forall (λ j, isTerminal j = false) before ∧
    isTerminal job = true.
Proof.
  induction answers as [|[j|err] rest IH]; cbn.
  - split; [done|]. intros ([|??] & ? & ? & _); done.
  - destruct (isTerminal j) eqn:Hj.
    + cbn. split.
      * intros [= <-]. by exists [], rest.
      * intros ([|k before] & after & Heq & Hall & Hjob).
        -- cbn in Heq. by injection Heq as ->.
        -- cbn in Heq. injection Heq as -> _.
           apply Forall_cons in Hall as [Hk _]. congruence.
    + destruct (checkStatus jobId ms rest) as [trace p]. cbn in *.
      rewrite IH. split.
      * intros (before & after & -> & Hall & Hjob).
        exists (j :: before), after. split_and!; [done| |done].
        by constructor.
      * intros ([|k before] & after & Heq & Hall & Hjob).
        -- cbn in Heq. injection Heq as ->. congruence.
        -- cbn in Heq. injection Heq as -> ->.
           apply Forall_cons in Hall as [_ Hall]. by exists before, after.
  - split; [done|]. intros ([|??] & ? & ? & _); done.
Qed.

Lemma checkStatus_rejected jobId ms before err after :
  Forall (λ j, isTerminal j = false) before →
  checkStatus jobId ms ((Fulfilled <$> before) ++ Failed err :: after) =
  (GetJob jobId ::
     mjoin (replicate (length before) [SetTimeout ms; GetJob jobId]),
   Rejected err).
Proof.
  induction 1 as [|j before Hj _ IH]; [done|].
  cbn. rewrite Hj. cbn in IH. by rewrite IH.
Qed.
End poll.

(** ** The polling effect *)

Section effect.
Implicit Types (st : State) (l : list BacktestJob) (polling : gset Z).
Implicit Types (acc : PollLoop) (j : BacktestJob) (i : Z).

Lemma foldl_startStep polling acc l :
  let r := foldl (startStep polling) acc l in
  newPollingSet r = list_to_set (untracked polling l) ∪ newPollingSet acc ∧
  started r = started acc ++ untracked polling l ∧
  (changed r = false → changed acc = false ∧ untracked polling l = []).
Proof.
  revert acc. induction l as [|j l IH]; intros acc.
  - cbn. split_and!; [set_solver|by rewrite app_nil_r|done].
  - cbn [foldl]. destruct (IH (startStep polling acc j)) as (Hs & Ht & Hc).
    unfold untracked in *. rewrite fmap_cons, filter_cons.
    unfold startStep in *. case_bool_decide as Hin.
    + rewrite decide_False by (intros Hn; by apply Hn). done.
    + rewrite decide_True by done. cbn in *. split_and!.
      * rewrite Hs. set_solver.
      * rewrite Ht. by rewrite <- app_assoc.
      * intros Hr. by destruct (Hc Hr).
Qed.

Lemma foldl_dropStep l acc (ids : list Z) :
  let r := foldl (dropStep l) acc ids in
  newPollingSet r = newPollingSet acc ∖ list_to_set (dropped l ids) ∧
  started r = started acc ∧
  (changed r = false → changed acc = false ∧ dropped l ids = []).
Proof.
  revert acc. induction ids as [|i ids IH]; intros acc.
  - cbn. split_and!; [set_solver|done|done].
  - cbn [foldl]. destruct (IH (dropStep l acc i)) as (Hs & Ht & Hc).
    unfold dropped in *. rewrite filter_cons.
    unfold dropStep in *. destruct (notPolled i l) eqn:Hi.
    + rewrite decide_True by done. cbn in *. split_and!.
      * rewrite Hs. set_solver.
      * done.
      * intros Hr. by destruct (Hc Hr).
    + rewrite decide_False by (by intros []). done.
Qed.

Lemma pollingEffect_jobs st : jobs (fst (pollingEffect st)) = jobs st.
Proof.
  unfold pollingEffect. cbn. by destruct (changed _).
Qed.

Lemma pollingEffect_started st :
  snd (pollingEffect st) =
  StartPoll <$>
    untracked (pollingJobs st) (filter (λ job, isActive job) (jobs st)).
Proof.
  unfold pollingEffect. cbn [snd]. f_equal.
  match goal with |- context [foldl (dropStep ?l) ?acc ?ids] =>
    destruct (foldl_dropStep l acc ids) as (_ & -> & _) end.
  match goal with |- context [foldl (startStep ?p) ?acc ?l] =>
    destruct (foldl_startStep p acc l) as (_ & -> & _) end.
  done.
Qed.

Lemma pollingEffect_pollingJobs st :
  pollingJobs (fst (pollingEffect st)) =
  (list_to_set
     (untracked (pollingJobs st) (filter (λ job, isActive job) (jobs st)))
     ∪ pollingJobs st)
    ∖ list_to_set (dropped (jobs st) (elements (pollingJobs st))).
Proof.
  unfold pollingEffect. cbn [fst].
  match goal with |- context [foldl (dropStep ?l) ?acc ?ids] =>
    destruct (foldl_dropStep l acc ids) as (Hd & _ & Hcd);
    cbn zeta in Hd, Hcd; set (r2 := foldl (dropStep l) acc ids) in * end.
  match type of Hd with context [foldl (startStep ?p) ?acc ?l] =>
    destruct (foldl_startStep p acc l) as (Hs & _ & Hcs);
    cbn zeta in Hs, Hcs; set (r1 := foldl (startStep p) acc l) in * end.
  cbn in Hs. destruct (changed r2) eqn:Hch.
  - cbn. by rewrite Hd, Hs.
  - destruct (Hcd eq_refl) as [Hc1 ->]. destruct (Hcs Hc1) as [_ ->].
    set_solver.
Qed.

Lemma pollingEffect_unchanged st :
  untracked (pollingJobs st) (filter (λ job, isActive job) (jobs st)) = [] →
  dropped (jobs st) (elements (pollingJobs st)) = [] →
  pollingEffect st = (st, []).
Proof.
  intros Hu Hd.
  assert (snd (pollingEffect st) = []) as Hsnd
    by (by rewrite pollingEffect_started, Hu).
  assert (pollingJobs (fst (pollingEffect st)) = pollingJobs st) as Hset
    by (rewrite pollingEffect_pollingJobs, Hu, Hd; set_solver).
  destruct (pollingEffect st) as [st' out] eqn:Heq. cbn in *. subst out.
  f_equal. unfold pollingEffect in Heq. injection Heq as Heq _.
  destruct (changed _); [|done]. subst st'. cbn in Hset. rewrite Hset.
  by destruct st.
Qed.
End effect.

(** ** Looking a job up by id *)

Section lookup.
Implicit Types (l : list BacktestJob) (j : BacktestJob) (i : Z).

Lemma findJob_Some i l j : findJob i l = Some j → j ∈ l ∧ id j = i.
Proof.
  unfold findJob. induction l as [|k l IH]; cbn; [done|].
  case_bool_decide as Hk.
  - intros [= <-]. split; [left|done].
  - intros Hf. destruct (IH Hf). split; [by right|done].
Qed.

Lemma findJob_None i l : findJob i l = None → i ∉ id <$> l.
Proof.
  unfold findJob. induction l as [|k l IH]; cbn.
  - intros _. apply not_elem_of_nil.
  - case_bool_decide as Hk; [done|]. intros Hf.
    apply not_elem_of_cons. split; [congruence|by apply IH].
Qed.

Lemma findJob_unique l j : uniqueIds l → j ∈ l → findJob (id j) l = Some j.
Proof.
  unfold uniqueIds, findJob. induction l as [|k l IH]; cbn.
  - intros _ Hj. by apply elem_of_nil in Hj.
  - rewrite NoDup_cons. intros [Hk Hl] Hj.
    case_bool_decide as Hid.
    + apply elem_of_cons in Hj as [->|Hj]; [done|].
      exfalso. apply Hk. rewrite Hid. by apply list_elem_of_fmap_2.
    + apply elem_of_cons in Hj as [->|Hj]; [done|]. by apply IH.
Qed.

Lemma notPolled_false i l :
  notPolled i l = false → ∃ j, j ∈ l ∧ id j = i ∧ isActive j = true.
Proof.
  unfold notPolled. destruct (findJob i l) as [j|] eqn:Hf; [|done].
  intros Ha. apply findJob_Some in Hf as [Hj Hi].
  exists j. split_and!; [done..|]. by destruct (isActive j).
Qed.

Lemma notPolled_active l j :
  uniqueIds l → j ∈ l → isActive j = true → notPolled (id j) l = false.
Proof.
  intros Hl Hj Ha. unfold notPolled. rewrite (findJob_unique l j Hl Hj).
  by rewrite Ha.
Qed.

Lemma elem_of_untracked (polling : gset Z) l i :
  i ∈ untracked polling l ↔ (i ∉ polling) ∧ ∃ j, j ∈ l ∧ id j = i.
Proof.
  unfold untracked. rewrite list_elem_of_filter, list_elem_of_fmap.
  naive_solver.
Qed.

Lemma uniqueIds_filter (P : BacktestJob → Prop) `{∀ j, Decision (P j)} l :
  uniqueIds l → uniqueIds (filter P l).
Proof.
  unfold uniqueIds. intros Hl. eapply sublist_NoDup; [exact Hl|].
  apply fmap_sublist, sublist_filter.
Qed.

Lemma uniqueIds_filteredJobs (showCompleted : bool) l :
  uniqueIds l → uniqueIds (filteredJobs showCompleted l).
Proof.
  destruct showCompleted; cbn; [done|]. apply uniqueIds_filter.
Qed.

Lemma uniqueIds_mergeJob (u : BacktestJob) l :
  uniqueIds l → uniqueIds (mergeJob u l).
Proof. unfold uniqueIds. by rewrite mergeJob_ids. Qed.

Lemma uniqueIds_same_id l j k :
  uniqueIds l → j ∈ l → k ∈ l → id j = id k → j = k.
Proof.
  intros Hl Hj Hk Hid. pose proof (findJob_unique l j Hl Hj) as H1.
  pose proof (findJob_unique l k Hl Hk) as H2. congruence.
Qed.
End lookup.

(** ** The polling set after the effect *)

Section tracking.
Implicit Types (st : State) (j : BacktestJob) (i : Z).

Lemma elem_of_pollingEffect st i :
  i ∈ pollingJobs (fst (pollingEffect st)) ↔
  (i ∈ pollingJobs st ∧ notPolled i (jobs st) = false) ∨
  ((i ∉ pollingJobs st) ∧ ∃ j, j ∈ jobs st ∧ id j = i ∧ isActive j = true).
Proof.
  rewrite pollingEffect_pollingJobs.
  rewrite elem_of_difference, elem_of_union, !elem_of_list_to_set.
  rewrite elem_of_untracked. unfold dropped.
  rewrite list_elem_of_filter, elem_of_elements.
  setoid_rewrite list_elem_of_filter.
  destruct (notPolled i (jobs st)) eqn:Hn; cbn.
  - split.
    + intros [[(Hi & j & (Ha & Hj) & Hid)|Hi] Hno].
      * right. split; [done|]. exists j. split_and!; [done..|].
        by destruct (isActive j).
      * exfalso. apply Hno. done.
    + intros [[_ [=]]|(Hi & j & Hj & Hid & Ha)].
      split; [|by intros [_ ?]].
      left. split; [done|]. exists j. split; [|done]. split; [|done].
      by rewrite Ha.
  - split.
    + intros [[(Hi & j & (Ha & Hj) & Hid)|Hi] _].
      * right. split; [done|]. exists j. split_and!; [done..|].
        by destruct (isActive j).
      * by left.
    + intros [[Hi _]|(Hi & j & Hj & Hid & Ha)].
      * split; [by right|]. by intros [[] _].
      * split; [|by intros [[] _]].
        left. split; [done|]. exists j. split; [|done]. split; [|done].
        by rewrite Ha.
Qed.

(** Whatever the polling set was, the effect leaves it equal to the ids
    of the displayed pending or running jobs. *)
Lemma pollingEffect_tracksActive st :
  uniqueIds (jobs st) → tracksActive (fst (pollingEffect st)).
Proof.
  intros Hu i. rewrite pollingEffect_jobs, elem_of_pollingEffect. split.
  - intros [[_ Hn]|[_ Hj]]; [by apply notPolled_false|done].
  - intros (j & Hj & <- & Ha).
    destruct (decide (id j ∈ pollingJobs st)) as [Hin|Hin].
    + left. split; [done|]. by apply notPolled_active.
    + right. split; [done|]. by exists j.
Qed.

(** On a state whose polling set is exact the effect does nothing. *)
Lemma pollingEffect_settled st :
  uniqueIds (jobs st) → tracksActive st → pollingEffect st = (st, []).
Proof.
  intros Hu Ht. apply pollingEffect_unchanged.
  - apply elem_of_nil_inv. intros i.
    rewrite elem_of_untracked. intros (Hi & j & Hj & Hid).
    apply list_elem_of_filter in Hj as [Ha Hj].
    apply Hi, Ht. exists j. split_and!; [done..|]. by destruct (isActive j).
  - apply elem_of_nil_inv. intros i. unfold dropped.
    rewrite list_elem_of_filter, elem_of_elements. intros [Hn Hi].
    apply Ht in Hi as (j & Hj & <- & Ha).
    rewrite (notPolled_active _ _ Hu Hj Ha) in Hn. done.
Qed.
End tracking.

(** ** Loading the list *)

Section load.
Implicit Types (st : State) (l : list BacktestJob) (showCompleted : bool).

Lemma loadJobs_settle_fulfilled showCompleted l st :
  loadJobs_settle showCompleted (Fulfilled l) st =
  (mkState (filteredJobs showCompleted l) false None (pollingJobs st), []).
Proof. done. Qed.

Lemma loadJobs_settle_failed showCompleted err st :
  loadJobs_settle showCompleted (Failed err) st =
  (mkState (jobs st) false (Some "Failed to load backtest jobs")
     (pollingJobs st),
   [ConsoleError err]).
Proof. done. Qed.

Lemma loadJobs_fulfilled showCompleted l st :
  loadJobs showCompleted (Fulfilled l) st =
  (mkState (filteredJobs showCompleted l) false None (pollingJobs st),
   [FetchBacktestJobs]).
Proof. done. Qed.

Lemma loadJobs_failed showCompleted err st :
  loadJobs showCompleted (Failed err) st =
  (mkState (jobs st) false (Some "Failed to load backtest jobs")
     (pollingJobs st),
   [FetchBacktestJobs; ConsoleError err]).
Proof. done. Qed.

Lemma andThen_fst r k : fst (andThen r k) = fst (k (fst r)).
Proof. unfold andThen. by destruct (k (fst r)). Qed.

Lemma andThen_snd r k : snd (andThen r k) = snd r ++ snd (k (fst r)).
Proof. unfold andThen. by destruct (k (fst r)). Qed.

Lemma loadSettled_jobs showCompleted l st :
  jobs (fst (loadSettled showCompleted (Fulfilled l) st)) =
  filteredJobs showCompleted l.
Proof. cbn [loadSettled]. by rewrite andThen_fst, pollingEffect_jobs. Qed.

Lemma filter_active_filteredJobs showCompleted l :
  filter (λ job, isActive job) (filteredJobs showCompleted l) =
  filter (λ job, isActive job) l.
Proof.
  destruct showCompleted; cbn; [done|].
  rewrite list_filter_filter. apply list_filter_iff. tauto.
Qed.

Lemma active_filteredJobs showCompleted l (j : BacktestJob) :
  isActive j = true → j ∈ filteredJobs showCompleted l ↔ j ∈ l.
Proof.
  intros Ha. destruct showCompleted; cbn; [done|].
  rewrite list_elem_of_filter, Ha. naive_solver.
Qed.
End load.

(** ** The state between two events *)

Section runs.
Implicit Types (st : State) (ev : Event) (evs : list Event).

Lemma settled_after_effect st :
  uniqueIds (jobs st) → settled (fst (pollingEffect st)).
Proof.
  intros Hu. split; [by rewrite pollingEffect_jobs|].
  by apply pollingEffect_tracksActive.
Qed.

Lemma settled_flags st b e :
  settled st → settled (mkState (jobs st) b e (pollingJobs st)).
Proof. by intros [??]. Qed.

Lemma loadSettled_settled showCompleted answer st :
  admissible (LoadSettles showCompleted answer) → settled st →
  settled (fst (loadSettled showCompleted answer st)).
Proof.
  destruct answer as [l|err]; cbn [admissible loadSettled].
  - intros Hl _. rewrite andThen_fst. apply settled_after_effect.
    cbn. by apply uniqueIds_filteredJobs.
  - intros _ Hs. rewrite loadJobs_settle_failed. by apply settled_flags.
Qed.

Lemma intervalTick_settled st : settled st → settled (fst (intervalTick st)).
Proof.
  intros Hs. unfold intervalTick. case_bool_decide; [|done].
  by apply settled_flags.
Qed.

Lemma step_settled st ev :
  admissible ev → settled st → settled (fst (step st ev)).
Proof.
  destruct ev as [| |sc answer|u|i err]; cbn [step].
  - intros _. apply intervalTick_settled.
  - intros _ Hs. by apply settled_flags.
  - apply loadSettled_settled.
  - intros _ [Hu _]. apply settled_after_effect.
    rewrite onPollResolved_jobs. by apply uniqueIds_mergeJob.
  - done.
Qed.

Lemma initial_settled : settled initial.
Proof.
  split; [constructor|]. intros i. cbn. split; [set_solver|].
  intros (j & Hj & _). by apply elem_of_nil in Hj.
Qed.

Lemma run_settled evs : Forall admissible evs → settled (run evs).
Proof.
  unfold run. generalize initial_settled. generalize initial.
  induction evs as [|ev evs IH]; intros st Hs Hall; [done|].
  apply Forall_cons in Hall as [Hev Hall]. cbn [foldl].
  apply IH; [|done]. by apply step_settled.
Qed.

Lemma settled_no_active st :
  settled st →
  pollingJobs st = ∅ ↔ filter (λ job, isActive job) (jobs st) = [].
Proof.
  intros [_ Ht]. split.
  - intros He. apply elem_of_nil_inv. intros j [Ha Hj]%list_elem_of_filter.
    assert (id j ∈ pollingJobs st) as Hin.
    { apply Ht. exists j. split_and!; [done..|]. by destruct (isActive j). }
    rewrite He in Hin. set_solver.
  - intros Hf. apply set_eq. intros i. split; [|set_solver].
    intros (j & Hj & _ & Ha)%Ht. exfalso.
    assert (j ∈ filter (λ job, isActive job) (jobs st)) as Hin
      by (apply list_elem_of_filter; by rewrite Ha).
    rewrite Hf in Hin. by apply elem_of_nil in Hin.
Qed.
End runs.

(** ** The scenario of job 42 *)

Example job42_poll_sequence :
  pollJobStatus 42 [Fulfilled job42_running; Fulfilled job42_completed] =
  ([GetJob 42; SetTimeout 2000; GetJob 42], Resolved job42_completed).
Proof. reflexivity. Qed.

Example job42_tracked_until_completed :
  let created := fst (loadSettled true (Fulfilled [job42_pending]) initial) in
  let done := fst (pollResolved job42_completed created) in
  pollingJobs created = {[42]} ∧
  snd (loadSettled true (Fulfilled [job42_pending]) initial) =
    [StartPoll 42] ∧
  pollingJobs done = ∅ ∧
  jobs done = [job42_completed] ∧
  backtest_run_id <$> jobs done = [Some 7].
Proof. cbv zeta. split_and!; reflexivity. Qed.

(** ** Properties of the merge *)

(** C9.  Merging a poll result replaces exactly the records whose id is
    that of the result, where they stand: the list keeps its length and the
    id at every position, a record with another id is kept as it is, and
    whether a position is replaced depends on the id found there only. *)
Theorem poll_merge_replaces_by_id_in_place
    (updatedJob : BacktestJob) (st : State) :
  let merged := jobs (onPollResolved updatedJob st) in
  merged = mergeJob updatedJob (jobs st) ∧
  length merged = length (jobs st) ∧
  id <$> merged = id <$> jobs st ∧
  (∀ (n : nat) j, jobs st !! n = Some j →
     merged !! n = Some (if bool_decide (id j = id updatedJob)
                         then updatedJob else j)) ∧
  (∀ (n : nat) j, jobs st !! n = Some j → id j ≠ id updatedJob →
     merged !! n = Some j).
Proof.
  cbv zeta. rewrite onPollResolved_jobs. split_and!.
  - done.
  - apply mergeJob_length.
  - apply mergeJob_ids.
  - intros n j Hn. by rewrite mergeJob_lookup, Hn.
  - intros n j Hn Hid. rewrite mergeJob_lookup, Hn. cbn.
    by rewrite bool_decide_eq_false_2.
Qed.

(** C10.  When no displayed record has the id of the poll result, the merge
    leaves the displayed list as it was: the result is not appended, so its
    result reference and error message are lost. *)
Theorem poll_result_for_absent_id_discarded
    (updatedJob : BacktestJob) (st : State) :
  id updatedJob ∉ id <$> jobs st →
  jobs (onPollResolved updatedJob st) = jobs st ∧
  jobs (fst (pollResolved updatedJob st)) = jobs st ∧
  updatedJob ∉ jobs (fst (pollResolved updatedJob st)).
Proof.
  intros Habs. unfold pollResolved.
  rewrite pollingEffect_jobs, onPollResolved_jobs, mergeJob_absent by done.
  split_and!; [done..|]. intros Hin. apply Habs. by apply list_elem_of_fmap_2.
Qed.

Lemma poll_result_for_absent_id_discarded_witness :
  let st := fst (loadSettled true (Fulfilled [job1_completed]) initial) in
  (id job2_failed ∉ id <$> jobs st) ∧
  jobs (onPollResolved job2_failed st) = jobs st ∧
  jobs (fst (pollResolved job2_failed st)) = jobs st ∧
  job2_failed ∉ jobs (fst (pollResolved job2_failed st)).
Proof.
  cbv zeta. split; [by_evaluation|].
  apply poll_result_for_absent_id_discarded. by_evaluation.
Defined.

(** C1, as the specification has it, fails: the snapshot of a full refresh
    that still shows job 2 pending, arriving after the poll of job 2 has
    merged the later failed record, replaces that record. *)
Lemma stale_refresh_overwrites_poll_result :
  let snapshot := [job1_completed; job2_pending] in
  let polled :=
    fst (pollResolved job2_failed
           (fst (loadSettled true (Fulfilled snapshot) initial))) in
  let refreshed := fst (loadSettled true (Fulfilled snapshot) polled) in
  id job2_pending = id job2_failed ∧
  earlier job2_pending job2_failed = true ∧
  jobs polled = [job1_completed; job2_failed] ∧
  jobs refreshed = [job1_completed; job2_pending] ∧
  (job2_failed ∉ jobs refreshed) ∧
  mergeJob job2_pending (mergeJob job2_failed snapshot) = snapshot.
Proof.
  cbv zeta. split_and!; try reflexivity. not_listed.
Qed.

(** C1, amended.  The last record to arrive wins, whatever the
    [updated_at] values: of two poll results with one id the second
    replaces the first, and a full refresh that succeeds replaces the
    whole displayed list by the fetched jobs (by the pending and running
    ones when completed jobs are hidden). *)
Theorem merge_last_write_wins_by_arrival
    (first second : BacktestJob) (prev snapshot : list BacktestJob)
    (showCompleted : bool) (st : State) :
  id first = id second →
  mergeJob second (mergeJob first prev) = mergeJob second prev ∧
  (∀ j, j ∈ mergeJob second (mergeJob first prev) →
        id j = id second → j = second) ∧
  jobs (fst (loadSettled showCompleted (Fulfilled snapshot) st)) =
    filteredJobs showCompleted snapshot.
Proof.
  intros Hid. split_and!.
  - apply mergeJob_same_id_absorbs. done.
  - intros j Hj Hj2. apply mergeJob_elem in Hj as [[-> _]|[_ Hne]]; done.
  - apply loadSettled_jobs.
Qed.

Lemma merge_last_write_wins_by_arrival_witness :
  id job2_failed = id job2_pending ∧
  mergeJob job2_pending (mergeJob job2_failed [job1_completed; job2_running])
    = mergeJob job2_pending [job1_completed; job2_running] ∧
  (∀ j, j ∈ mergeJob job2_pending
              (mergeJob job2_failed [job1_completed; job2_running]) →
        id j = id job2_pending → j = job2_pending) ∧
  jobs (fst (loadSettled false (Fulfilled [job1_completed; job2_pending])
               initial)) =
    filteredJobs false [job1_completed; job2_pending].
Proof.
  split; [reflexivity|].
  apply (merge_last_write_wins_by_arrival job2_failed job2_pending).
  reflexivity.
Defined.

(** ** Properties of the poll loop *)

(** C7.  [pollJobStatus] asks for the job, and after every answer that is
    still pending or running waits the interval (2000 ms by default) and
    asks again; the number of requests never exceeds the number of answers
    received by more than one, so requests do not overlap.  The promise
    resolves exactly when an answer carries a completed or failed record
    after pending or running ones only, and with that record: it never
    resolves with a pending or running record. *)
Theorem pollJobStatus_resolves_exactly_on_terminal
    (jobId : Z) (answers : list (Response BacktestJob)) :
  fst (pollJobStatus jobId answers) =
    GetJob jobId ::
      mjoin (replicate (rearmed answers) [SetTimeout 2000; GetJob jobId]) ∧
  (requests (fst (pollJobStatus jobId answers)) ≤ length answers + 1)%nat ∧
  (∀ job, snd (pollJobStatus jobId answers) = Resolved job ↔
     ∃ before after,
       answers = (Fulfilled <$> before) ++ Fulfilled job :: after ∧
       Forall (λ j, isTerminal j = false) before ∧
       isTerminal job = true) ∧
  (∀ job, snd (pollJobStatus jobId answers) = Resolved job →
     (status job = completed ∨ status job = failed) ∧
     status job ≠ pending ∧ status job ≠ running).
Proof.
  unfold pollJobStatus. split_and!.
  - apply checkStatus_trace.
  - rewrite checkStatus_requests. pose proof (rearmed_le answers). lia.
  - intros job. apply checkStatus_resolved_iff.
  - intros job Hres. apply checkStatus_resolved_terminal in Hres.
    apply isTerminal_true in Hres. split; [done|].
    destruct Hres as [-> | ->]; done.
Qed.

(** C2, as the specification has it, fails: after a network failure the
    loop of job 2 makes no further request, although the next answer would
    have been the failed record, and neither the effect nor the refresh of
    the next tick starts a new loop for job 2, whose id stays in the
    polling set. *)
Lemma poll_loop_stops_at_network_failure :
  let st := fst (loadSettled true (Fulfilled [job2_pending]) initial) in
  let st' := fst (onPollRejected 2 "Network Error" st) in
  pollJobStatus 2 [Failed "Network Error"; Fulfilled job2_failed] =
    ([GetJob 2], Rejected "Network Error") ∧
  snd (onPollRejected 2 "Network Error" st) =
    [PollingFailed 2 "Network Error"] ∧
  snd (pollingEffect st') = [] ∧
  snd (loadSettled true (Fulfilled [job2_pending]) (fst (intervalTick st')))
    = [].
Proof. cbv zeta. split_and!; reflexivity. Qed.

(** C2, amended.  A network failure ends the poll loop of that job: the
    promise is rejected with the error and no request follows the failed
    one.  The failure is logged, and it changes neither the displayed
    list, nor which other ids are in the polling set, nor what the next
    interval tick does, so the periodic refresh and the loops of the other
    jobs go on. *)
Theorem poll_failure_rejects_and_is_contained
    (jobId : Z) (before : list BacktestJob) (err : string)
    (after : list (Response BacktestJob)) (st : State) :
  Forall (λ j, isTerminal j = false) before →
  let answers := (Fulfilled <$> before) ++ Failed err :: after in
  snd (pollJobStatus jobId answers) = Rejected err ∧
  requests (fst (pollJobStatus jobId answers)) = S (length before) ∧
  snd (onPollRejected jobId err st) = [PollingFailed jobId err] ∧
  jobs (fst (onPollRejected jobId err st)) = jobs st ∧
  (∀ other, other ≠ jobId →
     other ∈ pollingJobs (fst (onPollRejected jobId err st)) ↔
     other ∈ pollingJobs st) ∧
  intervalTick (fst (onPollRejected jobId err st)) = intervalTick st.
Proof.
  intros Hbefore. cbv zeta. unfold pollJobStatus.
  rewrite checkStatus_rejected by done. cbn [fst snd].
  rewrite requests_rounds. done.
Qed.

Lemma poll_failure_rejects_and_is_contained_witness :
  let st := fst (loadSettled true (Fulfilled [job2_pending]) initial) in
  let answers :=
    (Fulfilled <$> [job2_running]) ++
      Failed "Network Error" :: [Fulfilled job2_failed] in
  Forall (λ j, isTerminal j = false) [job2_running] ∧
  snd (pollJobStatus 2 answers) = Rejected "Network Error" ∧
  requests (fst (pollJobStatus 2 answers)) = 2%nat ∧
  snd (onPollRejected 2 "Network Error" st) =
    [PollingFailed 2 "Network Error"] ∧
  jobs (fst (onPollRejected 2 "Network Error" st)) = jobs st ∧
  (∀ other, other ≠ 2 →
     other ∈ pollingJobs (fst (onPollRejected 2 "Network Error" st)) ↔
     other ∈ pollingJobs st) ∧
  intervalTick (fst (onPollRejected 2 "Network Error" st)) = intervalTick st.
Proof.
  cbv zeta.
  assert (Forall (λ j, isTerminal j = false) [job2_running]) as Hbefore
    by by_evaluation.
  split; [exact Hbefore|].
  exact (poll_failure_rejects_and_is_contained 2 [job2_running]
           "Network Error" [Fulfilled job2_failed] _ Hbefore).
Defined.

(** ** Properties of the full refresh *)

(** C4, as the specification has it, fails for a decoding error: with
    completed jobs shown, a body that is no list of jobs (here the text of
    a body that is not JSON) is stored in place of the displayed list, and
    no error is set. *)
Lemma malformed_body_overwrites_displayed_list :
  let st := fst (loadSettled true (Fulfilled [job2_pending]) initial) in
  let body := JString "<html>Bad Gateway</html>" in
  let after := loadJobs_settle_unchecked true body st in
  jobsCell (unchecked st) = JobList [job2_pending] ∧
  jobsCell (fst after) = Unchecked body ∧
  jobsCell (fst after) ≠ jobsCell (unchecked st) ∧
  errorCell (fst after) = None ∧
  snd after = [].
Proof. cbv zeta. split_and!; [reflexivity..|discriminate|reflexivity|reflexivity]. Qed.

(** With completed jobs hidden the same body makes the filter throw, and
    the [catch] treats it like a failed request. *)
Example malformed_body_is_caught_by_the_filter :
  let st := fst (loadSettled false (Fulfilled [job2_pending]) initial) in
  let body := JString "<html>Bad Gateway</html>" in
  let after := loadJobs_settle_unchecked false body st in
  jobsCell (fst after) = jobsCell (unchecked st) ∧
  errorCell (fst after) = Some "Failed to load backtest jobs".
Proof. cbv zeta. split; reflexivity. Qed.

(** C4, amended.  A load whose request fails leaves the displayed list and
    the polling set as they were, whenever its answer arrives; the failure
    is caught: it is logged and stored in [error], which the next load
    that succeeds clears. *)
Theorem failed_refresh_keeps_displayed_list
    (showCompleted : bool) (err : string) (st : State) :
  let failedLoad := loadJobs showCompleted (Failed err) st in
  jobs (fst failedLoad) = jobs st ∧
  pollingJobs (fst failedLoad) = pollingJobs st ∧
  error (fst failedLoad) = Some "Failed to load backtest jobs" ∧
  loading (fst failedLoad) = false ∧
  snd failedLoad = [FetchBacktestJobs; ConsoleError err] ∧
  jobs (fst (loadJobs_settle showCompleted (Failed err) st)) = jobs st ∧
  jobs (fst (loadSettled showCompleted (Failed err) st)) = jobs st ∧
  pollingJobs (fst (loadSettled showCompleted (Failed err) st)) =
    pollingJobs st ∧
  (∀ showCompleted' l,
     error (fst (loadJobs showCompleted' (Fulfilled l) (fst failedLoad)))
     = None).
Proof. cbv zeta. split_and!; done. Qed.

(** While [error] is set the panel shows the error notice in place of the
    tables; the list is kept in the state and shown again after the next
    load that succeeds. *)
Remark render_after_failed_load (showCompleted : bool) (err : string)
    (st : State) :
  render showCompleted (fst (loadJobs showCompleted (Failed err) st)) =
  ErrorView "Failed to load backtest jobs".
Proof. done. Qed.

(** ** Properties of the polling set *)

Section started.
Implicit Types (st : State) (j : BacktestJob) (i : Z).

Lemma started_NoDup st :
  uniqueIds (jobs st) → NoDup (snd (pollingEffect st)).
Proof.
  intros Hu. rewrite pollingEffect_started.
  apply (NoDup_fmap_2 StartPoll). unfold untracked.
  apply NoDup_filter. by apply uniqueIds_filter.
Qed.

Lemma started_elem st i :
  StartPoll i ∈ snd (pollingEffect st) ↔
  (i ∉ pollingJobs st) ∧ ∃ j, j ∈ jobs st ∧ id j = i ∧ isActive j = true.
Proof.
  rewrite pollingEffect_started, (list_elem_of_fmap_inj StartPoll).
  rewrite elem_of_untracked. setoid_rewrite list_elem_of_filter.
  split.
  - intros (Hi & j & (Ha & Hj) & Hid). split; [done|].
    exists j. split_and!; [done..|]. by destruct (isActive j).
  - intros (Hi & j & Hj & Hid & Ha). split; [done|].
    exists j. split; [|done]. split; [by rewrite Ha|done].
Qed.

Lemma pollsStarted_once st i :
  uniqueIds (jobs st) → StartPoll i ∈ snd (pollingEffect st) →
  pollsStarted i (snd (pollingEffect st)) = 1%nat.
Proof.
  intros Hu Hin. unfold pollsStarted.
  apply NoDup_count_occ'; [by apply NoDup_ListNoDup, started_NoDup|].
  by apply list_elem_of_In.
Qed.
End started.

(** C5.  With every job listed once, the effect starts exactly one poll
    loop for each displayed pending or running job whose id is not in the
    polling set and puts the id in the set; it starts none for an id that
    is in the set, and running it again starts nothing and changes
    nothing. *)
Theorem ensurePolling_starts_one_loop_per_job (st : State) :
  uniqueIds (jobs st) →
  (∀ j, j ∈ jobs st → isActive j = true → id j ∉ pollingJobs st →
     pollsStarted (id j) (snd (pollingEffect st)) = 1%nat ∧
     id j ∈ pollingJobs (fst (pollingEffect st))) ∧
  (∀ i, i ∈ pollingJobs st → pollsStarted i (snd (pollingEffect st)) = 0%nat) ∧
  pollingEffect (fst (pollingEffect st)) = (fst (pollingEffect st), []).
Proof.
  intros Hu. split_and!.
  - intros j Hj Ha Hnew. split.
    + apply pollsStarted_once; [done|]. apply started_elem. eauto.
    + apply (pollingEffect_tracksActive st Hu).
      rewrite pollingEffect_jobs. eauto.
  - intros i Hi. unfold pollsStarted. apply count_occ_not_In.
    rewrite <- list_elem_of_In, started_elem. by intros [Hn _].
  - destruct (settled_after_effect st Hu) as [Hu' Ht'].
    by apply pollingEffect_settled.
Qed.

Lemma ensurePolling_starts_one_loop_per_job_witness :
  let st := mkState [job1_completed; job2_pending; job42_running]
              false None {[42]} in
  uniqueIds (jobs st) ∧
  (∀ j, j ∈ jobs st → isActive j = true → id j ∉ pollingJobs st →
     pollsStarted (id j) (snd (pollingEffect st)) = 1%nat ∧
     id j ∈ pollingJobs (fst (pollingEffect st))) ∧
  (∀ i, i ∈ pollingJobs st → pollsStarted i (snd (pollingEffect st)) = 0%nat) ∧
  pollingEffect (fst (pollingEffect st)) = (fst (pollingEffect st), []).
Proof.
  cbv zeta.
  assert (uniqueIds [job1_completed; job2_pending; job42_running]) as Hu
    by by_evaluation.
  split; [exact Hu|].
  exact (ensurePolling_starts_one_loop_per_job
           (mkState [job1_completed; job2_pending; job42_running]
              false None {[42]}) Hu).
Defined.

(** Without unique ids the test against the polling set of the render
    lets one effect start two loops for one id. *)
Example duplicate_ids_start_two_loops :
  snd (pollingEffect (mkState [job2_pending; job2_running] false None ∅)) =
  [StartPoll 2; StartPoll 2].
Proof. reflexivity. Qed.

(** The [.then] callback keeps the polling set exact by itself, before the
    effect runs again. *)
Lemma onPollResolved_tracksActive (updatedJob : BacktestJob) (st : State) :
  isTerminal updatedJob = true → tracksActive st →
  tracksActive (onPollResolved updatedJob st).
Proof.
  intros Hterm Ht i.
  rewrite onPollResolved_pollingJobs, onPollResolved_jobs, Hterm.
  rewrite elem_of_difference, elem_of_singleton, (Ht i). split.
  - intros [(j & Hj & Hid & Ha) Hne]. exists j. split_and!; [|done..].
    unfold mergeJob. apply list_elem_of_fmap. exists j. split; [|done].
    rewrite bool_decide_eq_false_2; [done|congruence].
  - intros (j & Hj & Hid & Ha).
    apply mergeJob_elem in Hj as [[-> _]|[Hj Hne]].
    + rewrite isTerminal_not_active, Ha in Hterm. done.
    + split; [by exists j|congruence].
Qed.

(** *** The polling set and what has been observed *)

Section observations.
Implicit Types (st : State) (ev : Event) (evs : list Event).
Implicit Types (l : list BacktestJob) (j : BacktestJob) (i : Z).
Implicit Types (m : gmap Z Status) (o : Observed).

Lemma seen_fold_other m l i :
  i ∉ id <$> l →
  foldl (λ m job, <[id job := status job]> m) m l !! i = m !! i.
Proof.
  revert m. induction l as [|k l IH]; intros m; [done|].
  rewrite fmap_cons, not_elem_of_cons. intros [Hk Hl]. cbn [foldl].
  rewrite IH by done. by apply lookup_insert_ne.
Qed.

Lemma seen_fold_lookup m l j :
  uniqueIds l → j ∈ l →
  foldl (λ m job, <[id job := status job]> m) m l !! id j
  = Some (status j).
Proof.
  unfold uniqueIds. revert m. induction l as [|k l IH]; intros m.
  - intros _ Hj. by apply elem_of_nil in Hj.
  - rewrite fmap_cons, NoDup_cons. intros [Hk Hl] Hj. cbn [foldl].
    apply elem_of_cons in Hj as [->|Hj]; [|by apply IH].
    rewrite seen_fold_other by done. apply lookup_insert_eq.
Qed.

Lemma run_snoc evs ev : run (evs ++ [ev]) = fst (step (run evs) ev).
Proof. unfold run. by rewrite foldl_app. Qed.

Lemma observed_snoc evs ev :
  observed (evs ++ [ev]) = observeStep (observed evs) ev.
Proof. unfold observed. by rewrite foldl_app. Qed.

Lemma intervalTick_jobs st : jobs (fst (intervalTick st)) = jobs st.
Proof. unfold intervalTick. by case_bool_decide. Qed.

Lemma pollResolved_jobs (u : BacktestJob) st :
  jobs (fst (pollResolved u st)) = mergeJob u (jobs st).
Proof.
  unfold pollResolved. by rewrite pollingEffect_jobs, onPollResolved_jobs.
Qed.

Lemma lastSeenActive_true o i :
  lastSeenActive o i = true ↔
  ∃ s, seen o !! i = Some s ∧ (s = pending ∨ s = running).
Proof.
  unfold lastSeenActive. destruct (seen o !! i) as [[]|]; split;
    try done; eauto; by intros (s & [= <-] & [?|?]).
Qed.

Lemma displaysObserved_same_jobs st st' o :
  jobs st' = jobs st → displaysObserved st o → displaysObserved st' o.
Proof. unfold displaysObserved. by intros ->. Qed.

Lemma displaysObserved_load (showCompleted : bool) l st o :
  uniqueIds l →
  displaysObserved
    (fst (loadSettled showCompleted (Fulfilled l) st))
    (observeStep o (LoadSettles showCompleted (Fulfilled l))).
Proof.
  intros Hu. unfold displaysObserved. rewrite loadSettled_jobs.
  cbn [observeStep seen listed]. split.
  - intros j Hj.
    assert (j ∈ l) as Hjl.
    { destruct showCompleted; cbn in Hj; [done|].
      by apply list_elem_of_filter in Hj as [_ ?]. }
    split; [|by apply seen_fold_lookup].
    apply elem_of_list_to_set. by apply list_elem_of_fmap_2.
  - intros i Hi Ha. apply elem_of_list_to_set in Hi.
    apply list_elem_of_fmap in Hi as (j & -> & Hj).
    apply list_elem_of_fmap_2.
    apply lastSeenActive_true in Ha as (s & Hs & Hact). cbn [seen] in Hs.
    rewrite (seen_fold_lookup _ l j Hu Hj) in Hs. injection Hs as <-.
    apply active_filteredJobs; [by apply isActive_true|done].
Qed.

Lemma displaysObserved_poll (u : BacktestJob) st o :
  isTerminal u = true → displaysObserved st o →
  displaysObserved (fst (pollResolved u st)) (observeStep o (PollResolves u)).
Proof.
  intros Hterm [Hshown Hlisted]. unfold displaysObserved.
  rewrite pollResolved_jobs. cbn [observeStep seen listed]. split.
  - intros j Hj. apply mergeJob_elem in Hj as [[-> Hin]|[Hj Hne]].
    + split; [|apply lookup_insert_eq].
      apply list_elem_of_fmap in Hin as (k & -> & Hk). by apply Hshown.
    + destruct (Hshown j Hj) as [Hl Hs]. split; [done|].
      by rewrite lookup_insert_ne.
  - intros i Hi Ha. rewrite mergeJob_ids.
    destruct (decide (i = id u)) as [->|Hne].
    + apply lastSeenActive_true in Ha as (s & Hs & Hact). cbn [seen] in Hs.
      rewrite lookup_insert_eq in Hs. injection Hs as <-.
      apply isActive_true in Hact.
      rewrite isTerminal_not_active, Hact in Hterm. done.
    + apply Hlisted; [done|].
      unfold lastSeenActive in *. cbn [seen] in Ha.
      by rewrite lookup_insert_ne in Ha.
Qed.

Lemma step_displaysObserved st o ev :
  admissible ev → displaysObserved st o →
  displaysObserved (fst (step st ev)) (observeStep o ev).
Proof.
  destruct ev as [| |sc [l|err]|u|i err]; cbn [step admissible].
  - intros _. apply displaysObserved_same_jobs, intervalTick_jobs.
  - intros _. by apply displaysObserved_same_jobs.
  - intros Hu _. by apply displaysObserved_load.
  - intros _. by apply displaysObserved_same_jobs.
  - intros Hterm. by apply displaysObserved_poll.
  - intros _. by apply displaysObserved_same_jobs.
Qed.

Lemma run_displaysObserved evs :
  Forall admissible evs → displaysObserved (run evs) (observed evs).
Proof.
  induction evs as [|ev evs IH] using rev_ind.
  - intros _. split.
    + intros j Hj. by apply elem_of_nil in Hj.
    + intros i Hi. by apply not_elem_of_empty in Hi.
  - rewrite Forall_app, Forall_singleton. intros [Hall Hev].
    rewrite run_snoc, observed_snoc. by apply step_displaysObserved; [|apply IH].
Qed.
End observations.

(** C6, as the specification has it, fails: job 2 was last observed
    pending, but after a refresh that no longer lists it its id has left
    the polling set. *)
Lemma unlisted_pending_job_leaves_tracked_set :
  let before := [LoadSettles true (Fulfilled [job2_pending]); Tick] in
  let evs := before ++ [LoadSettles true (Fulfilled [job1_completed])] in
  Forall admissible evs ∧
  2 ∈ pollingJobs (run before) ∧
  seen (observed evs) !! 2 = Some pending ∧
  lastSeenActive (observed evs) 2 = true ∧
  2 ∉ pollingJobs (run evs).
Proof.
  cbv zeta. split_and!; [by_evaluation|by_evaluation|reflexivity|reflexivity|].
  by_evaluation.
Qed.

(** C6, amended.  After every run of the component in which the backend
    lists each job once, an id is in the polling set exactly when the most
    recent load that succeeded listed it and the status most recently
    observed for it, in a load or in a poll result, is pending or running;
    every displayed record carries the status most recently observed for
    its id.  Whatever the state before, after a refresh the id of every
    job that the fetched list reports as completed or failed is outside
    the polling set. *)
Theorem tracked_set_follows_observations (evs : list Event) :
  Forall admissible evs →
  (∀ i, i ∈ pollingJobs (run evs) ↔
        i ∈ listed (observed evs) ∧ lastSeenActive (observed evs) i = true) ∧
  (∀ j, j ∈ jobs (run evs) →
        seen (observed evs) !! id j = Some (status j)) ∧
  (∀ st showCompleted l j,
     uniqueIds l → j ∈ l → isTerminal j = true →
     id j ∉ pollingJobs (fst (loadSettled showCompleted (Fulfilled l) st))).
Proof.
  intros Hall. destruct (run_settled evs Hall) as [_ Ht].
  destruct (run_displaysObserved evs Hall) as [Hshown Hlisted].
  split_and!.
  - intros i. rewrite (Ht i). split.
    + intros (j & Hj & <- & Ha). destruct (Hshown j Hj) as [Hl Hs].
      split; [done|]. apply lastSeenActive_true.
      exists (status j). split; [done|]. by apply isActive_true.
    + intros [Hl Ha]. pose proof (Hlisted i Hl Ha) as Hin.
      apply list_elem_of_fmap in Hin as (j & -> & Hj).
      exists j. split_and!; [done..|].
      destruct (Hshown j Hj) as [_ Hs].
      apply lastSeenActive_true in Ha as (s & Hs' & Hact).
      rewrite Hs in Hs'. injection Hs' as <-. by apply isActive_true.
  - intros j Hj. by destruct (Hshown j Hj).
  - intros st sc l j Hl Hj Hterm Hin.
    assert (settled (fst (loadSettled sc (Fulfilled l) st))) as [Hu Ht'].
    { cbn [loadSettled]. rewrite andThen_fst. apply settled_after_effect.
      cbn. by apply uniqueIds_filteredJobs. }
    apply Ht' in Hin as (k & Hk & Hid & Ha).
    rewrite loadSettled_jobs in Hk.
    apply (active_filteredJobs sc l k Ha) in Hk.
    assert (k = j) as -> by (by apply (uniqueIds_same_id l)).
    rewrite isTerminal_not_active, Ha in Hterm. done.
Qed.

Example watch_run_state :
  jobs (run watch_run) = [job1_completed; job2_pending; job42_completed] ∧
  pollingJobs (run watch_run) = {[2]}.
Proof. split; reflexivity. Qed.

Lemma tracked_set_follows_observations_witness :
  Forall admissible watch_run ∧
  (∀ i, i ∈ pollingJobs (run watch_run) ↔
        i ∈ listed (observed watch_run) ∧
        lastSeenActive (observed watch_run) i = true) ∧
  (∀ j, j ∈ jobs (run watch_run) →
        seen (observed watch_run) !! id j = Some (status j)) ∧
  (∀ st showCompleted l j,
     uniqueIds l → j ∈ l → isTerminal j = true →
     id j ∉ pollingJobs (fst (loadSettled showCompleted (Fulfilled l) st))).
Proof.
  assert (Forall admissible watch_run) as Hall by by_evaluation.
  split; [exact Hall|].
  exact (tracked_set_follows_observations watch_run Hall).
Defined.

(** C3, as the specification has it, fails: with completed jobs hidden the
    list kept in the state is the fetched list without its completed and
    failed jobs. *)
Lemma active_view_stores_filtered_list :
  let allJobs := [job1_completed; job2_pending] in
  jobs (fst (loadJobs false (Fulfilled allJobs) initial)) = [job2_pending] ∧
  jobs (fst (loadSettled false (Fulfilled allJobs) initial)) = [job2_pending] ∧
  jobs (fst (loadSettled false (Fulfilled allJobs) initial)) ≠ allJobs.
Proof. cbv zeta. split_and!; [reflexivity..|discriminate]. Qed.

(** C3, amended.  A load that succeeds stores the fetched list when
    completed jobs are shown and only its pending and running jobs when
    they are hidden.  For a fetched list that has every job once, the
    pending and running jobs of the stored list, the polls started and the
    polling set after the load are the same under both settings. *)
Theorem view_does_not_affect_tracking
    (allJobs : list BacktestJob) (st : State) :
  uniqueIds allJobs →
  let fullView := loadSettled true (Fulfilled allJobs) st in
  let activeView := loadSettled false (Fulfilled allJobs) st in
  jobs (fst fullView) = allJobs ∧
  jobs (fst activeView) = filter (λ job, isActive job) allJobs ∧
  filter (λ job, isActive job) (jobs (fst activeView)) =
    filter (λ job, isActive job) (jobs (fst fullView)) ∧
  pollingJobs (fst activeView) = pollingJobs (fst fullView) ∧
  snd activeView = snd fullView.
Proof.
  intros Hu. cbv zeta. rewrite !loadSettled_jobs.
  split_and!; [done..|by rewrite !filter_active_filteredJobs| |].
  - apply set_eq. intros i.
    assert (∀ sc, settled (fst (loadSettled sc (Fulfilled allJobs) st))) as Hs.
    { intros sc. cbn [loadSettled]. rewrite andThen_fst.
      apply settled_after_effect. cbn. by apply uniqueIds_filteredJobs. }
    destruct (Hs false) as [_ Hf]. destruct (Hs true) as [_ Ht].
    rewrite (Hf i), (Ht i), !loadSettled_jobs.
    split; intros (j & Hj & Hid & Ha); exists j; (split_and!; [|done..]).
    + by apply (active_filteredJobs false allJobs j Ha) in Hj.
    + by apply (active_filteredJobs false allJobs j Ha).
  - cbn [loadSettled]. rewrite !andThen_snd, !pollingEffect_started.
    rewrite !loadJobs_settle_fulfilled. cbn [fst snd jobs pollingJobs].
    by rewrite !filter_active_filteredJobs.
Qed.

Lemma view_does_not_affect_tracking_witness :
  let allJobs := [job1_completed; job2_pending; job42_running] in
  let st := mkState [job42_pending] false None {[42]} in
  let fullView := loadSettled true (Fulfilled allJobs) st in
  let activeView := loadSettled false (Fulfilled allJobs) st in
  uniqueIds allJobs ∧
  jobs (fst fullView) = allJobs ∧
  jobs (fst activeView) = filter (λ job, isActive job) allJobs ∧
  filter (λ job, isActive job) (jobs (fst activeView)) =
    filter (λ job, isActive job) (jobs (fst fullView)) ∧
  pollingJobs (fst activeView) = pollingJobs (fst fullView) ∧
  snd activeView = snd fullView.
Proof.
  cbv zeta.
  assert (uniqueIds [job1_completed; job2_pending; job42_running]) as Hu
    by by_evaluation.
  split; [exact Hu|].
  exact (view_does_not_affect_tracking _
           (mkState [job42_pending] false None {[42]}) Hu).
Defined.

(** With one id listed twice the two settings can disagree: the effect
    looks the id up with [find], which sees the first record only. *)
Example duplicate_ids_views_disagree :
  let allJobs := [job2_failed; job2_pending] in
  let st := mkState [] false None {[2]} in
  pollingJobs (fst (loadSettled true (Fulfilled allJobs) st)) = ∅ ∧
  pollingJobs (fst (loadSettled false (Fulfilled allJobs) st)) = {[2]}.
Proof. cbv zeta. split; reflexivity. Qed.

(** ** The interval *)

(** C8.  In every state that a run of the component reaches, a tick with
    an empty polling set issues nothing and changes nothing, and a tick
    with a polling set that is not empty calls [loadJobs], which requests
    the full list; when the answer arrives the rest of [loadJobs] is
    followed by the polling effect. *)
Theorem periodic_refresh_gated_by_tracked_set
    (evs : list Event) (showCompleted : bool)
    (answer : Response (list BacktestJob)) :
  Forall admissible evs →
  let st := run evs in
  (pollingJobs st = ∅ → intervalTick st = (st, [])) ∧
  (pollingJobs st ≠ ∅ →
     intervalTick st = loadJobs_call st ∧
     snd (intervalTick st) = [FetchBacktestJobs] ∧
     andThen (intervalTick st) (loadSettled showCompleted answer) =
       andThen (loadJobs showCompleted answer st) pollingEffect).
Proof.
  intros Hall. cbv zeta. pose proof (run_settled evs Hall) as Hs.
  pose proof (settled_no_active _ Hs) as Hempty.
  unfold intervalTick. split.
  - intros He. apply Hempty in He. rewrite He. done.
  - intros Hne. rewrite bool_decide_eq_true_2; last first.
    { destruct (filter _ (jobs (run evs))) eqn:Hf; [|cbn; lia].
      exfalso. by apply Hne, Hempty. }
    split_and!; [done..|]. destruct answer as [l|err]; [done|].
    unfold loadJobs, andThen, loadSettled, loadJobs_call. cbn [fst snd].
    rewrite loadJobs_settle_failed. cbn [fst snd].
    rewrite pollingEffect_settled; [by rewrite app_nil_r| |].
    + apply Hs.
    + apply (settled_flags _ false (Some "Failed to load backtest jobs") Hs).
Qed.

Lemma periodic_refresh_gated_by_tracked_set_witness :
  let st := run job42_run in
  let st' :=
    run [LoadSettles true (Fulfilled [job1_completed; job2_pending])] in
  Forall admissible job42_run ∧
  Forall admissible
    [LoadSettles true (Fulfilled [job1_completed; job2_pending])] ∧
  pollingJobs st = ∅ ∧
  intervalTick st = (st, []) ∧
  pollingJobs st' ≠ ∅ ∧
  snd (intervalTick st') = [FetchBacktestJobs].
Proof.
  cbv zeta.
  assert (Forall admissible job42_run) as H1 by by_evaluation.
  assert (Forall admissible
            [LoadSettles true (Fulfilled [job1_completed; job2_pending])])
    as H2 by by_evaluation.
  assert (pollingJobs (run job42_run) = ∅) as He by reflexivity.
  assert (pollingJobs
            (run [LoadSettles true
                    (Fulfilled [job1_completed; job2_pending])]) ≠ ∅)
    as Hne by by_evaluation.
  split_and!; [exact H1|exact H2|exact He| |exact Hne|].
  - exact (proj1 (periodic_refresh_gated_by_tracked_set job42_run false
                    (Failed "Network Error") H1) He).
  - exact (proj1 (proj2 (proj2 (periodic_refresh_gated_by_tracked_set _ true
                    (Failed "Network Error") H2) Hne))).
Defined.

(** ** More on the poll loop *)

Section poll_more.
Implicit Types (answers : list (Response BacktestJob)) (job : BacktestJob).

Lemma checkStatus_pending jobId ms (records : list BacktestJob) :
  Forall (λ j, isTerminal j = false) records →
  checkStatus jobId ms (Fulfilled <$> records) =
  (GetJob jobId ::
     mjoin (replicate (length records) [SetTimeout ms; GetJob jobId]),
   Unsettled).
Proof.
  induction 1 as [|j records Hj _ IH]; [done|].
  cbn. rewrite Hj. cbn in IH. by rewrite IH.
Qed.

Lemma checkStatus_unsettled_inv jobId ms answers :
  snd (checkStatus jobId ms answers) = Unsettled →
  ∃ records, answers = Fulfilled <$> records ∧
             Forall (λ j, isTerminal j = false) records.
Proof.
  induction answers as [|[j|err] rest IH]; cbn.
  - intros _. by exists [].
  - destruct (isTerminal j) eqn:Hj; [done|].
    destruct (checkStatus jobId ms rest) as [trace p]. cbn in *.
    intros Hp. destruct (IH Hp) as (records & -> & Hall).
    exists (j :: records). split; [done|]. by constructor.
  - done.
Qed.

Lemma checkStatus_rejected_inv jobId ms answers err :
  snd (checkStatus jobId ms answers) = Rejected err →
  ∃ before after,
    answers = (Fulfilled <$> before) ++ Failed err :: after ∧
    Forall (λ j, isTerminal j = false) before.
Proof.
  induction answers as [|[j|e] rest IH]; cbn.
  - done.
  - destruct (isTerminal j) eqn:Hj; [done|].
    destruct (checkStatus jobId ms rest) as [trace p]. cbn in *.
    intros Hp. destruct (IH Hp) as (before & after & -> & Hall).
    exists (j :: before), after. split; [done|]. by constructor.
  - intros [= ->]. by exists [], rest.
Qed.

Lemma checkStatus_app_settled jobId ms answers more :
  snd (checkStatus jobId ms answers) ≠ Unsettled →
  checkStatus jobId ms (answers ++ more) = checkStatus jobId ms answers.
Proof.
  induction answers as [|[j|err] rest IH]; cbn; [done| |done].
  destruct (isTerminal j); [done|].
  destruct (checkStatus jobId ms rest) as [trace p] eqn:Hrest. cbn in *.
  intros Hp. by rewrite (IH Hp).
Qed.
End poll_more.

(** X1.  Once the promise of [pollJobStatus] is resolved or rejected,
    answers that would come later change nothing: the outcome is the same
    and no further request or timer is issued. *)
Theorem pollJobStatus_settles_once
    (jobId : Z) (answers more : list (Response BacktestJob)) :
  snd (pollJobStatus jobId answers) ≠ Unsettled →
  pollJobStatus jobId (answers ++ more) = pollJobStatus jobId answers.
Proof. apply checkStatus_app_settled. Qed.

Lemma pollJobStatus_settles_once_witness :
  let answers := [Fulfilled job42_running; Fulfilled job42_completed] in
  snd (pollJobStatus 42 answers) ≠ Unsettled ∧
  pollJobStatus 42 (answers ++ [Fulfilled job42_pending; Failed "late"]) =
    pollJobStatus 42 answers.
Proof.
  cbv zeta.
  assert (snd (pollJobStatus 42
                 [Fulfilled job42_running; Fulfilled job42_completed])
          ≠ Unsettled) as Hs by (vm_compute; discriminate).
  split; [exact Hs|].
  exact (pollJobStatus_settles_once 42 _ _ Hs).
Defined.

(** X2.  The loop has no ceiling on its attempts: the promise is still
    unsettled exactly when every answer so far carried a pending or
    running record, and after n such answers the loop has made n + 1
    requests and armed n timers, for every n. *)
Theorem pollJobStatus_polls_without_bound
    (jobId : Z) (answers : list (Response BacktestJob)) :
  (snd (pollJobStatus jobId answers) = Unsettled ↔
     ∃ records, answers = Fulfilled <$> records ∧
                Forall (λ j, isTerminal j = false) records) ∧
  (∀ records, Forall (λ j, isTerminal j = false) records →
     pollJobStatus jobId (Fulfilled <$> records) =
       (GetJob jobId ::
          mjoin (replicate (length records)
                   [SetTimeout 2000; GetJob jobId]),
        Unsettled) ∧
     requests (fst (pollJobStatus jobId (Fulfilled <$> records))) =
       S (length records)).
Proof.
  unfold pollJobStatus. split.
  - split; [apply checkStatus_unsettled_inv|].
    intros (records & -> & Hall). by rewrite checkStatus_pending.
  - intros records Hall. rewrite checkStatus_pending by done.
    split; [done|]. apply requests_rounds.
Qed.

(** X3.  The promise is rejected exactly when a request fails after
    pending or running answers only, and with the error of that request;
    a failure after a completed or failed record is never seen. *)
Theorem pollJobStatus_rejects_exactly_on_failure
    (jobId : Z) (answers : list (Response BacktestJob)) (err : string) :
  snd (pollJobStatus jobId answers) = Rejected err ↔
  ∃ before after,
    answers = (Fulfilled <$> before) ++ Failed err :: after ∧
    Forall (λ j, isTerminal j = false) before.
Proof.
  unfold pollJobStatus. split; [apply checkStatus_rejected_inv|].
  intros (before & after & -> & Hall). by rewrite checkStatus_rejected.
Qed.

(** X4.  With any interval, every request of the loop is for the job it
    was started for and every timer is armed with that interval; the
    trace starts with a request and has two entries per further round. *)
Theorem checkStatus_trace_only_own_job
    (jobId ms : Z) (answers : list (Response BacktestJob)) :
  Forall (λ e, e = GetJob jobId ∨ e = SetTimeout ms)
    (fst (checkStatus jobId ms answers)) ∧
  head (fst (checkStatus jobId ms answers)) = Some (GetJob jobId) ∧
  length (fst (checkStatus jobId ms answers)) =
    (2 * requests (fst (checkStatus jobId ms answers)) - 1)%nat.
Proof.
  rewrite checkStatus_requests, checkStatus_trace.
  generalize (rearmed answers) as n. intros n. split_and!.
  - constructor; [by left|].
    induction n as [|n IH]; [constructor|].
    cbn. constructor; [by right|]. constructor; [by left|]. exact IH.
  - done.
  - assert (length (mjoin (replicate n [SetTimeout ms; GetJob jobId]))
            = (2 * n)%nat) as Hlen.
    { induction n as [|n IH]; [done|].
      transitivity (S (S (2 * n)))%nat; [|lia]. cbn. do 2 f_equal. exact IH. }
    cbn [length]. rewrite Hlen. lia.
Qed.

(** ** More on the merge *)

Section merge_more.
Implicit Types (a b u j : BacktestJob) (l : list BacktestJob) (st : State).

Lemma mergeJob_comm a b l :
  id a ≠ id b → mergeJob a (mergeJob b l) = mergeJob b (mergeJob a l).
Proof.
  intros Hab. unfold mergeJob. rewrite <- !list_fmap_compose.
  apply list_fmap_ext. intros _ j _. cbn.
  destruct (decide (id j = id a)) as [Ha|Ha];
    destruct (decide (id j = id b)) as [Hb|Hb]; [congruence| | |].
  - rewrite (bool_decide_eq_false_2 (id j = id b)) by done.
    rewrite !(bool_decide_eq_true_2 (id j = id a)) by done. cbn.
    rewrite bool_decide_eq_false_2; [done|congruence].
  - rewrite (bool_decide_eq_false_2 (id j = id a)) by done.
    rewrite !(bool_decide_eq_true_2 (id j = id b)) by done. cbn.
    rewrite bool_decide_eq_false_2; [done|congruence].
  - rewrite !(bool_decide_eq_false_2 (id j = id b)) by done.
    rewrite !(bool_decide_eq_false_2 (id j = id a)) by done. cbn.
    by rewrite !(bool_decide_eq_false_2 (id j = id b)) by done.
Qed.

Lemma findJob_mergeJob_same u l :
  findJob (id u) (mergeJob u l) = (λ _, u) <$> findJob (id u) l.
Proof.
  unfold findJob, mergeJob. induction l as [|j l IH]; [done|].
  rewrite fmap_cons. cbn [find]. destruct (decide (id j = id u)) as [Hj|Hj].
  - rewrite !(bool_decide_eq_true_2 (id j = id u)) by done. cbn.
    by rewrite bool_decide_eq_true_2.
  - rewrite !(bool_decide_eq_false_2 (id j = id u)) by done. exact IH.
Qed.

Lemma findJob_mergeJob_other u l i :
  i ≠ id u → findJob i (mergeJob u l) = findJob i l.
Proof.
  intros Hi. unfold findJob, mergeJob. induction l as [|j l IH]; [done|].
  rewrite fmap_cons. cbn [find]. destruct (decide (id j = id u)) as [Hj|Hj].
  - rewrite (bool_decide_eq_true_2 (id j = id u)) by done.
    rewrite !bool_decide_eq_false_2 by congruence. exact IH.
  - rewrite (bool_decide_eq_false_2 (id j = id u)) by done.
    by rewrite IH.
Qed.
End merge_more.

(** X5.  Poll results of two different jobs can arrive in either order:
    the displayed list and the polling set end up the same. *)
Theorem poll_results_of_different_jobs_commute
    (a b : BacktestJob) (st : State) :
  id a ≠ id b →
  mergeJob a (mergeJob b (jobs st)) = mergeJob b (mergeJob a (jobs st)) ∧
  onPollResolved a (onPollResolved b st) =
    onPollResolved b (onPollResolved a st).
Proof.
  intros Hab. split; [by apply mergeJob_comm|].
  unfold onPollResolved, setJobs, setPollingJobs.
  destruct (isTerminal a), (isTerminal b);
    cbn [jobs loading error pollingJobs];
    rewrite (mergeJob_comm a b) by done; f_equal.
  apply set_eq. intros i. set_solver.
Qed.

Lemma poll_results_of_different_jobs_commute_witness :
  let st := mkState [job1_completed; job2_pending; job42_running]
              false None {[2; 42]} in
  id job2_failed ≠ id job42_completed ∧
  mergeJob job2_failed (mergeJob job42_completed (jobs st)) =
    mergeJob job42_completed (mergeJob job2_failed (jobs st)) ∧
  onPollResolved job2_failed (onPollResolved job42_completed st) =
    onPollResolved job42_completed (onPollResolved job2_failed st).
Proof.
  cbv zeta.
  assert (id job2_failed ≠ id job42_completed) as Hne by by_evaluation.
  split; [exact Hne|].
  exact (poll_results_of_different_jobs_commute job2_failed job42_completed
           _ Hne).
Defined.

(** X6.  After the merge of a poll result, looking its id up in the
    displayed list finds the result itself when the id was displayed and
    nothing when it was not, and the lookup of every other id is as
    before. *)
Theorem merged_record_is_found_by_id
    (updatedJob : BacktestJob) (st : State) :
  findJob (id updatedJob) (jobs (onPollResolved updatedJob st)) =
    (if bool_decide (id updatedJob ∈ id <$> jobs st)
     then Some updatedJob else None) ∧
  (∀ i, i ≠ id updatedJob →
     findJob i (jobs (onPollResolved updatedJob st)) = findJob i (jobs st)).
Proof.
  rewrite onPollResolved_jobs. split.
  - rewrite findJob_mergeJob_same.
    destruct (findJob (id updatedJob) (jobs st)) as [j|] eqn:Hf; cbn.
    + apply findJob_Some in Hf as [Hj Hid].
      rewrite bool_decide_eq_true_2; [done|].
      rewrite <- Hid. by apply list_elem_of_fmap_2.
    + apply findJob_None in Hf. by rewrite bool_decide_eq_false_2.
  - intros i Hi. by apply findJob_mergeJob_other.
Qed.

(** X7.  Handling the same poll result twice is the same as handling it
    once. *)
Theorem onPollResolved_idempotent (updatedJob : BacktestJob) (st : State) :
  onPollResolved updatedJob (onPollResolved updatedJob st) =
  onPollResolved updatedJob st.
Proof.
  unfold onPollResolved, setJobs, setPollingJobs.
  destruct (isTerminal updatedJob);
    cbn [jobs loading error pollingJobs];
    rewrite mergeJob_same_id_absorbs by done; f_equal.
  apply set_eq. intros i. set_solver.
Qed.

(** ** More on the polling effect *)

(** X8.  Whatever the state before, and also when an id is listed twice,
    every id that the polling effect leaves in the polling set is the id
    of a displayed pending or running job; an id whose job is no longer
    listed is not in the set afterwards, and an id of the set whose first
    record is completed or failed is dropped from it. *)
Theorem pollingEffect_keeps_only_active_ids (st : State) (i : Z) :
  (i ∈ pollingJobs (fst (pollingEffect st)) →
     ∃ j, j ∈ jobs st ∧ id j = i ∧ isActive j = true) ∧
  (i ∉ id <$> jobs st → i ∉ pollingJobs (fst (pollingEffect st))) ∧
  (i ∈ pollingJobs st → notPolled i (jobs st) = true →
     i ∉ pollingJobs (fst (pollingEffect st))).
Proof.
  assert (i ∈ pollingJobs (fst (pollingEffect st)) →
          ∃ j, j ∈ jobs st ∧ id j = i ∧ isActive j = true) as Hsound.
  { rewrite elem_of_pollingEffect.
    intros [[_ Hn]|[_ Hj]]; [by apply notPolled_false|done]. }
  split_and!; [done| |].
  - intros Habs Hin. destruct (Hsound Hin) as (j & Hj & <- & _).
    apply Habs. by apply list_elem_of_fmap_2.
  - intros Hold Hn. rewrite elem_of_pollingEffect.
    intros [[_ Hn']|[Hnot _]]; [congruence|done].
Qed.

(** X9.  In a state between two events, the answer of a poll starts no
    new poll: all that happens is the merge of the record and the removal
    of its id from the polling set. *)
Theorem poll_resolution_starts_no_poll
    (updatedJob : BacktestJob) (st : State) :
  settled st → isTerminal updatedJob = true →
  pollResolved updatedJob st = (onPollResolved updatedJob st, []).
Proof.
  intros [Hu Ht] Hterm. unfold pollResolved. apply pollingEffect_settled.
  - rewrite onPollResolved_jobs. by apply uniqueIds_mergeJob.
  - by apply onPollResolved_tracksActive.
Qed.

Lemma poll_resolution_starts_no_poll_witness :
  let st := fst (loadSettled true
                   (Fulfilled [job1_completed; job2_pending; job42_running])
                   initial) in
  settled st ∧ isTerminal job42_completed = true ∧
  pollResolved job42_completed st = (onPollResolved job42_completed st, []).
Proof.
  cbv zeta.
  assert (settled
            (fst (loadSettled true
                    (Fulfilled [job1_completed; job2_pending; job42_running])
                    initial))) as Hs
    by (apply settled_after_effect; by_evaluation).
  split_and!; [exact Hs|reflexivity|].
  exact (poll_resolution_starts_no_poll job42_completed _ Hs eq_refl).
Defined.

(** X10.  After a load that succeeds with every job listed once, the
    polling set is the set of ids of the fetched pending and running jobs,
    whatever it was before, and the polls started are those of the fetched
    pending and running jobs whose id was not in the set, in the order of
    the list. *)
Theorem refresh_tracks_fetched_active_jobs
    (showCompleted : bool) (allJobs : list BacktestJob) (st : State) :
  uniqueIds allJobs →
  pollingJobs (fst (loadSettled showCompleted (Fulfilled allJobs) st)) =
    list_to_set (id <$> filter (λ job, isActive job) allJobs) ∧
  snd (loadSettled showCompleted (Fulfilled allJobs) st) =
    StartPoll <$>
      filter (λ i, i ∉ pollingJobs st)
        (id <$> filter (λ job, isActive job) allJobs).
Proof.
  intros Hu. split.
  - assert (settled (fst (loadSettled showCompleted (Fulfilled allJobs) st)))
      as [_ Ht].
    { cbn [loadSettled]. rewrite andThen_fst. apply settled_after_effect.
      cbn. by apply uniqueIds_filteredJobs. }
    apply set_eq. intros i. rewrite (Ht i), loadSettled_jobs.
    rewrite elem_of_list_to_set, list_elem_of_fmap.
    setoid_rewrite list_elem_of_filter. split.
    + intros (j & Hj & Hid & Ha). exists j. split; [done|].
      split; [by rewrite Ha|].
      by apply (active_filteredJobs showCompleted allJobs j Ha) in Hj.
    + intros (j & -> & Ha & Hj).
      assert (isActive j = true) as Ha' by (by destruct (isActive j)).
      exists j. split_and!; [|done..].
      by apply (active_filteredJobs showCompleted allJobs j Ha').
  - cbn [loadSettled]. rewrite andThen_snd, pollingEffect_started.
    rewrite loadJobs_settle_fulfilled. cbn [fst snd jobs pollingJobs].
    by rewrite filter_active_filteredJobs.
Qed.

Lemma refresh_tracks_fetched_active_jobs_witness :
  let allJobs := [job1_completed; job2_pending; job42_running] in
  let st := mkState [job42_pending] false None {[42; 7]} in
  uniqueIds allJobs ∧
  pollingJobs (fst (loadSettled false (Fulfilled allJobs) st)) =
    list_to_set (id <$> filter (λ job, isActive job) allJobs) ∧
  snd (loadSettled false (Fulfilled allJobs) st) =
    StartPoll <$>
      filter (λ i, i ∉ pollingJobs st)
        (id <$> filter (λ job, isActive job) allJobs).
Proof.
  cbv zeta.
  assert (uniqueIds [job1_completed; job2_pending; job42_running]) as Hu
    by by_evaluation.
  split; [exact Hu|].
  exact (refresh_tracks_fetched_active_jobs false _
           (mkState [job42_pending] false None {[42; 7]}) Hu).
Defined.

(** X11.  An id enters the polling set exactly when the effect starts a
    poll for it: the ids that are in the set after the effect and were not
    before are those of the polls started, also when an id is listed
    twice. *)
Theorem polling_set_grows_by_polls_started (st : State) (i : Z) :
  StartPoll i ∈ snd (pollingEffect st) ↔
  i ∈ pollingJobs (fst (pollingEffect st)) ∧ i ∉ pollingJobs st.
Proof.
  rewrite started_elem, elem_of_pollingEffect. split.
  - intros [Hnew Hj]. split; [by right|done].
  - intros [[[Hold _]|[_ Hj]] Hnew]; [done|]. by split.
Qed.

(** ** Ticks, errors and what the panel shows *)

Section panel.
Implicit Types (st : State) (ev : Event) (l : list BacktestJob).

Lemma intervalTick_idle st :
  filter (λ job, isActive job) (jobs st) = [] → intervalTick st = (st, []).
Proof. intros Hf. unfold intervalTick. by rewrite Hf. Qed.

Lemma runFrom_acc st (out : list Effect) evs :
  foldl (λ r ev, andThen r (λ s, step s ev)) (st, out) evs =
  (fst (runFrom st evs), out ++ snd (runFrom st evs)).
Proof.
  unfold runFrom. revert st out. induction evs as [|e evs IH]; intros st out.
  - cbn. by rewrite app_nil_r.
  - cbn [foldl]. unfold andThen at 2 4 6. cbn [fst snd].
    destruct (step st e) as [s o]. cbn [app].
    rewrite (IH s (out ++ o)), (IH s o). cbn [fst snd].
    by rewrite app_assoc.
Qed.

Lemma runFrom_cons st ev evs :
  runFrom st (ev :: evs) = andThen (step st ev) (λ s, runFrom s evs).
Proof.
  unfold runFrom at 1. cbn [foldl]. unfold andThen at 2. cbn [fst snd app].
  destruct (step st ev) as [s o]. rewrite runFrom_acc.
  unfold andThen. cbn [fst snd]. by destruct (runFrom s evs).
Qed.

Lemma runFrom_ticks_idle st (n : nat) :
  filter (λ job, isActive job) (jobs st) = [] →
  runFrom st (replicate n Tick) = (st, []).
Proof.
  intros Hf. induction n as [|n IH]; [done|].
  cbn [replicate]. rewrite runFrom_cons. cbn [step].
  rewrite intervalTick_idle by done. unfold andThen. cbn [fst snd].
  by rewrite IH.
Qed.

Lemma pollingEffect_frame st :
  ∃ polling, fst (pollingEffect st) = setPollingJobs polling st.
Proof.
  unfold pollingEffect. cbn [fst]. destruct (changed _).
  - by eexists.
  - exists (pollingJobs st). by destruct st.
Qed.

Lemma render_error_notice (showCompleted : bool) st msg :
  truthy (error st) = Some msg → jobs st ≠ [] →
  render showCompleted st = ErrorView msg.
Proof.
  intros He Hj. unfold render. rewrite He.
  rewrite bool_decide_eq_false_2, andb_false_r; [done|].
  by destruct (jobs st).
Qed.

Lemma render_tables (showCompleted : bool) st :
  truthy (error st) = None → jobs st ≠ [] →
  render showCompleted st =
  TablesView (nonEmpty (filter (λ job, isActive job) (jobs st)))
    (if showCompleted
     then nonEmpty (filter (λ job, isTerminal job) (jobs st)) else None)
    false.
Proof.
  intros He Hj. unfold render. rewrite He.
  rewrite bool_decide_eq_false_2, andb_false_r; [done|].
  by destruct (jobs st).
Qed.

Lemma rows_nonEmpty l : rows (nonEmpty l) = l.
Proof. by destruct l. Qed.

Lemma active_terminal_partition l :
  filter (λ job, isActive job) l ++ filter (λ job, isTerminal job) l ≡ₚ l.
Proof.
  assert (filter (λ job, isTerminal job) l =
          filter (λ job, ¬ isActive job) l) as ->.
  { apply list_filter_iff. intros j.
    rewrite isTerminal_not_active. destruct (isActive j); cbn; tauto. }
  apply filter_app_complement.
Qed.
End panel.

(** X13.  While no displayed job is pending or running, ticks of the
    interval do nothing, however many: no request is sent and the state
    stays as it is.  In particular a first load that fails is never tried
    again by the interval, and the panel keeps showing its error
    notice. *)
Theorem idle_panel_never_refreshes :
  (∀ st (n : nat),
     filter (λ job, isActive job) (jobs st) = [] →
     runFrom st (replicate n Tick) = (st, [])) ∧
  (∀ showCompleted err (n : nat),
     let st := fst (loadSettled showCompleted (Failed err) initial) in
     runFrom st (replicate n Tick) = (st, []) ∧
     render showCompleted (fst (runFrom st (replicate n Tick))) =
       ErrorView "Failed to load backtest jobs").
Proof.
  split.
  - intros st n. apply runFrom_ticks_idle.
  - intros sc err n. cbv zeta. rewrite runFrom_ticks_idle by done. done.
Qed.

(** X14.  Only the answer of a load changes [error]: a tick, a change of
    [showCompleted], and a poll that resolves or rejects leave it as it
    is.  So once a refresh has failed, the panel with a list that is not
    empty shows the error notice in place of its tables until a load
    succeeds, also while poll results are merged into the list. *)
Theorem error_notice_stays_until_next_load
    (showCompleted : bool) (st : State) (ev : Event) (msg : string) :
  isLoadAnswer ev = false →
  truthy (error st) = Some msg →
  jobs st ≠ [] →
  error (fst (step st ev)) = error st ∧
  render showCompleted (fst (step st ev)) = ErrorView msg.
Proof.
  intros Hev He Hj.
  assert (error (fst (step st ev)) = error st ∧ jobs (fst (step st ev)) ≠ [])
    as [Herr Hjobs].
  { destruct ev as [| |sc answer|u|i err]; cbn [step]; [| |done| |done].
    - unfold intervalTick. by case_bool_decide.
    - done.
    - unfold pollResolved.
      destruct (pollingEffect_frame (onPollResolved u st)) as [p ->].
      cbn [error jobs setPollingJobs]. rewrite onPollResolved_jobs.
      split; [unfold onPollResolved; by destruct (isTerminal u)|].
      intros Hm. apply Hj. apply (f_equal length) in Hm.
      rewrite mergeJob_length in Hm. by destruct (jobs st). }
  split; [done|]. apply render_error_notice; [by rewrite Herr|done].
Qed.

Lemma error_notice_stays_until_next_load_witness :
  let st := fst (loadSettled true (Failed "Network Error")
                   (fst (loadSettled true (Fulfilled [job2_pending])
                           initial))) in
  isLoadAnswer (PollResolves job2_failed) = false ∧
  truthy (error st) = Some "Failed to load backtest jobs" ∧
  jobs st ≠ [] ∧
  error (fst (step st (PollResolves job2_failed))) = error st ∧
  render true (fst (step st (PollResolves job2_failed))) =
    ErrorView "Failed to load backtest jobs".
Proof.
  cbv zeta.
  split_and!; [reflexivity|reflexivity|discriminate|..];
    apply (error_notice_stays_until_next_load true _
             (PollResolves job2_failed) "Failed to load backtest jobs");
    (reflexivity || discriminate).
Defined.

(** X15.  Calling [loadJobs] while jobs are displayed does not change what
    the panel shows until the answer arrives; with an empty list it shows
    the loading notice, also in place of an error notice. *)
Theorem refresh_in_flight_keeps_the_view
    (showCompleted : bool) (st : State) :
  (jobs st ≠ [] →
     render showCompleted (fst (loadJobs_call st)) = render showCompleted st) ∧
  (jobs st = [] →
     render showCompleted (fst (loadJobs_call st)) = LoadingView).
Proof.
  unfold render, loadJobs_call, setLoading. cbn [fst jobs loading error].
  split.
  - intros Hj. rewrite bool_decide_eq_false_2, !andb_false_r; [done|].
    by destruct (jobs st).
  - intros ->. done.
Qed.

(** X16.  When the panel shows its tables, the first holds the displayed
    pending and running jobs and the second, with [showCompleted], the
    completed and failed ones, both in the order of the list; with
    [showCompleted] every displayed job is in exactly one of them, and
    without it the second table has no rows.  The line for an empty list
    is shown exactly when the list is empty. *)
Theorem tables_split_the_displayed_jobs
    (showCompleted : bool) (st : State)
    (activeTable completedTable : option (list BacktestJob)) (noJobs : bool) :
  render showCompleted st = TablesView activeTable completedTable noJobs →
  rows activeTable = filter (λ job, isActive job) (jobs st) ∧
  rows completedTable =
    (if showCompleted then filter (λ job, isTerminal job) (jobs st)
     else []) ∧
  (showCompleted = true → rows activeTable ++ rows completedTable ≡ₚ jobs st) ∧
  (∀ j, j ∈ rows activeTable → j ∉ rows completedTable) ∧
  (noJobs = true ↔ jobs st = []).
Proof.
  unfold render. destruct (loading st && _); [done|].
  destruct (truthy (error st)); [done|]. intros [= <- <- <-].
  rewrite rows_nonEmpty.
  assert (rows (if showCompleted
                then nonEmpty (filter (λ job, isTerminal job) (jobs st))
                else None) =
          if showCompleted then filter (λ job, isTerminal job) (jobs st)
          else []) as ->.
  { destruct showCompleted; [apply rows_nonEmpty|done]. }
  split_and!; [done|done| | |].
  - intros ->. apply active_terminal_partition.
  - intros j [Ha _]%list_elem_of_filter Hc.
    destruct showCompleted; [|by apply elem_of_nil in Hc].
    apply list_elem_of_filter in Hc as [Ht _].
    rewrite isTerminal_not_active in Ht. by destruct (isActive j).
  - rewrite bool_decide_eq_true. by destruct (jobs st).
Qed.

Lemma tables_split_the_displayed_jobs_witness :
  let st := run watch_run in
  render true st =
    TablesView (Some [job2_pending]) (Some [job1_completed; job42_completed])
      false ∧
  rows (Some [job2_pending]) ++ rows (Some [job1_completed; job42_completed])
    ≡ₚ jobs st.
Proof.
  cbv zeta.
  assert (render true (run watch_run) =
          TablesView (Some [job2_pending])
            (Some [job1_completed; job42_completed]) false) as Hr
    by reflexivity.
  split; [exact Hr|].
  exact (proj1 (proj2 (proj2
           (tables_split_the_displayed_jobs true _ _ _ _ Hr))) eq_refl).
Defined.

(** X17.  With completed jobs hidden, a list that is not empty and holds
    completed or failed jobs only gives a panel with no table and without
    the line for an empty list; this is the panel after the poll of the
    last displayed job has resolved. *)
Theorem active_view_can_show_nothing (st : State) :
  truthy (error st) = None →
  jobs st ≠ [] →
  Forall (λ j, isTerminal j = true) (jobs st) →
  render false st = TablesView None None false.
Proof.
  intros He Hj Hall. rewrite render_tables by done.
  assert (filter (λ job, isActive job) (jobs st) = []) as ->; [|done].
  apply elem_of_nil_inv. intros j [Ha Hin]%list_elem_of_filter.
  rewrite Forall_forall in Hall. specialize (Hall j Hin).
  rewrite isTerminal_not_active in Hall. by destruct (isActive j).
Qed.

Lemma active_view_can_show_nothing_witness :
  let st := run job42_run in
  jobs st = [job42_completed] ∧
  truthy (error st) = None ∧
  jobs st ≠ [] ∧
  Forall (λ j, isTerminal j = true) (jobs st) ∧
  render false st = TablesView None None false.
Proof.
  cbv zeta.
  assert (Forall (λ j, isTerminal j = true) (jobs (run job42_run))) as Hall
    by by_evaluation.
  split_and!; [reflexivity|reflexivity|discriminate|exact Hall|].
  exact (active_view_can_show_nothing (run job42_run) eq_refl
           ltac:(discriminate) Hall).
Defined.

(** X18.  [getStatusColor] gives the four statuses four different
    colours, and gray exactly to the strings that are no status. *)
Theorem getStatusColor_distinguishes_statuses :
  (∀ s1 s2, getStatusColor (statusName s1) = getStatusColor (statusName s2) →
            s1 = s2) ∧
  (∀ status, getStatusColor status = "gray" ↔ ∀ s, status ≠ statusName s).
Proof.
  split.
  - intros [] []; vm_compute; congruence.
  - intros status. unfold getStatusColor. split.
    + intros Hg s ->. by destruct s.
    + intros Hno.
      rewrite !bool_decide_eq_false_2; [done|..].
      * exact (Hno failed).
      * exact (Hno completed).
      * exact (Hno running).
      * exact (Hno pending).
Qed.

(** X12.  An id of the polling set whose job is still displayed as
    pending or running (in the first record with that id) stays in the
    set, and the effect starts no poll for it; no uniqueness of ids is
    needed. *)
Theorem tracked_active_job_is_left_alone (st : State) (i : Z) :
  i ∈ pollingJobs st → notPolled i (jobs st) = false →
  i ∈ pollingJobs (fst (pollingEffect st)) ∧
  StartPoll i ∉ snd (pollingEffect st).
Proof.
  intros Hold Hn. split.
  - apply elem_of_pollingEffect. by left.
  - rewrite started_elem. by intros [Hnot _].
Qed.

Lemma tracked_active_job_is_left_alone_witness :
  let st := mkState [job2_running; job2_failed; job42_pending] false None
              {[2]} in
  2 ∈ pollingJobs st ∧ notPolled 2 (jobs st) = false ∧
  2 ∈ pollingJobs (fst (pollingEffect st)) ∧
  StartPoll 2 ∉ snd (pollingEffect st).
Proof.
  cbv zeta.
  assert (2 ∈ ({[2]} : gset Z)) as Hin by by_evaluation.
  split_and!; [exact Hin|reflexivity|..];
    apply (tracked_active_job_is_left_alone
             (mkState [job2_running; job2_failed; job42_pending] false None
                {[2]}) 2 Hin eq_refl).
Defined.

(** X24.  As long as the backend lists every job once, the displayed list
    holds every id once after every run, and so do the rows of each table
    of the panel, which use the id as their key. *)
Theorem displayed_ids_stay_unique
    (evs : list Event) (showCompleted : bool)
    (activeTable completedTable : option (list BacktestJob)) (noJobs : bool) :
  Forall admissible evs →
  uniqueIds (jobs (run evs)) ∧
  (render showCompleted (run evs) =
     TablesView activeTable completedTable noJobs →
   uniqueIds (rows activeTable) ∧ uniqueIds (rows completedTable)).
Proof.
  intros Hall. destruct (run_settled evs Hall) as [Hu _].
  split; [done|]. unfold render.
  destruct (loading _ && _); [done|].
  destruct (truthy _); [done|]. intros [= <- <- <-].
  rewrite rows_nonEmpty. split; [by apply uniqueIds_filter|].
  destruct showCompleted; [|constructor].
  rewrite rows_nonEmpty. by apply uniqueIds_filter.
Qed.

Lemma displayed_ids_stay_unique_witness :
  Forall admissible watch_run ∧
  uniqueIds (jobs (run watch_run)) ∧
  uniqueIds (rows (Some [job2_pending])) ∧
  uniqueIds (rows (Some [job1_completed; job42_completed])).
Proof.
  assert (Forall admissible watch_run) as Hall by by_evaluation.
  split; [exact Hall|].
  destruct (displayed_ids_stay_unique watch_run true (Some [job2_pending])
              (Some [job1_completed; job42_completed]) false Hall)
    as [Hu Hrows].
  split; [exact Hu|]. exact (Hrows eq_refl).
Defined.

(** ** The form *)

Section form.
Import ConfigForm.
Implicit Types (st : ConfigForm.State) (k name : string).
Implicit Types (ps : list StrategyParameter.t).

Lemma defaultParams_acc (acc : gmap string Json) ps k :
  foldl (λ acc param,
           match StrategyParameter.default param with
           | Some d => <[StrategyParameter.name param := d]> acc
           | None => acc
           end) acc ps !! k =
  match last (omap (λ p, if bool_decide (StrategyParameter.name p = k)
                         then StrategyParameter.default p else None) ps) with
  | Some d => Some d
  | None => acc !! k
  end.
Proof.
  revert acc. induction ps as [|p ps IH]; intros acc; [done|].
  cbn [foldl omap list_omap]. rewrite IH.
  destruct (StrategyParameter.default p) as [d|] eqn:Hd.
  - case_bool_decide as Hk.
    + rewrite last_cons. destruct (last _); [done|].
      by rewrite Hk, lookup_insert_eq.
    + destruct (last _); [done|]. by rewrite lookup_insert_ne.
  - by case_bool_decide.
Qed.

Lemma findStrategy_Some name (l : list StrategyInfo.t) s :
  findStrategy name l = Some s → s ∈ l ∧ StrategyInfo.name s = name.
Proof.
  unfold findStrategy. induction l as [|x l IH]; cbn; [done|].
  case_bool_decide as Hx.
  - intros [= <-]. split; [left|done].
  - intros Hf. destruct (IH Hf). split; [by right|done].
Qed.
Lemma findStrategy_head (first : StrategyInfo.t) (rest : list StrategyInfo.t) :
  findStrategy (StrategyInfo.name first) (first :: rest) = Some first.
Proof. unfold findStrategy. cbn. by rewrite bool_decide_eq_true_2. Qed.

Lemma not_posted (out : list ConfigForm.Effect) :
  (out = [OnSuccess;
          Alert "Backtest job created! It will run in the background."] ∨
   out = [Alert "Backtest job created! It will run in the background."] ∨
   ∃ err, out = [ConsoleError err]) →
  ∀ job, CreateBacktestJob job ∉ out.
Proof.
  intros Hout job Hin. destruct Hout as [->|[->|[err ->]]];
    repeat (apply elem_of_cons in Hin as [Hin|Hin]; [discriminate Hin|]);
    by apply elem_of_nil in Hin.
Qed.

(** X19.  The defaults the form starts from: under a key the object holds
    the default of the last parameter with that name that has a default,
    and nothing when no parameter with that name has one; so every key is
    the name of a parameter. *)
Theorem defaultParams_last_default_wins ps k :
  defaultParams ps !! k =
    last (omap (λ p, if bool_decide (StrategyParameter.name p = k)
                     then StrategyParameter.default p else None) ps) ∧
  (is_Some (defaultParams ps !! k) → k ∈ StrategyParameter.name <$> ps).
Proof.
  assert (defaultParams ps !! k =
          last (omap (λ p, if bool_decide (StrategyParameter.name p = k)
                           then StrategyParameter.default p else None) ps))
    as Heq.
  { unfold defaultParams. rewrite defaultParams_acc.
    destruct (last _); [done|]. apply lookup_empty. }
  split; [done|]. rewrite Heq. intros [d Hd].
  apply last_Some in Hd as [l' Hl'].
  assert (d ∈ omap (λ p, if bool_decide (StrategyParameter.name p = k)
                          then StrategyParameter.default p else None) ps)
    as Hin by (rewrite Hl'; apply elem_of_app; right; left).
  apply list_elem_of_omap in Hin as (p & Hp & Hdp).
  case_bool_decide as Hk; [|done].
  rewrite <- Hk. by apply list_elem_of_fmap_2.
Qed.

(** X20.  When the strategies have loaded, the form is out of its loading
    state whatever the answer.  With a list that is not empty the first
    strategy is the selected one, also when its name occurs again later,
    and the parameters are its defaults; with an empty list no strategy is
    selected and name and parameters stay as they were; after a failure
    the list, name and parameters stay as they were and the error is
    set. *)
Theorem loadStrategies_selects_first_strategy
    (first : StrategyInfo.t) (rest : list StrategyInfo.t) (err : string) st :
  let loaded := fst (loadStrategies_settle (Fulfilled (first :: rest)) st) in
  let empty := fst (loadStrategies_settle (Fulfilled []) st) in
  let failed := fst (loadStrategies_settle (Failed err) st) in
  (loading loaded = false ∧
   strategies loaded = first :: rest ∧
   selectedStrategy loaded = Some first ∧
   strategyParams loaded = defaultParams (StrategyInfo.parameters first)) ∧
  (loading empty = false ∧
   selectedStrategy empty = None ∧
   strategyName empty = strategyName st ∧
   strategyParams empty = strategyParams st) ∧
  (loading failed = false ∧
   error failed = Some "Failed to load strategies" ∧
   strategies failed = strategies st ∧
   strategyName failed = strategyName st ∧
   strategyParams failed = strategyParams st).
Proof.
  cbv zeta. split_and!; try done.
  unfold selectedStrategy. cbn. apply findStrategy_head.
Qed.

(** X21.  Choosing a strategy that is in the list sets the parameters to
    the defaults of the first strategy of that name, so an edit made
    before is lost; choosing a name that is not in the list changes the
    name only: the parameters of the strategy chosen before stay, and no
    strategy is selected. *)
Theorem handleStrategyChange_resets_parameters
    name (paramName value : string) st :
  (∀ s, findStrategy name (strategies st) = Some s →
     selectedStrategy (handleStrategyChange name st) = Some s ∧
     strategyParams (handleStrategyChange name st) =
       defaultParams (StrategyInfo.parameters s) ∧
     handleStrategyChange name (handleParamChange paramName value st) =
       handleStrategyChange name st) ∧
  (findStrategy name (strategies st) = None →
     selectedStrategy (handleStrategyChange name st) = None ∧
     strategyName (handleStrategyChange name st) = name ∧
     strategyParams (handleStrategyChange name st) = strategyParams st ∧
     strategyParams
       (handleStrategyChange name (handleParamChange paramName value st)) =
       <[paramName := JString value]> (strategyParams st)).
Proof.
  split.
  - intros s Hs.
    assert (∀ st0, strategies st0 = strategies st →
              handleStrategyChange name st0 =
              setStrategyParams (defaultParams (StrategyInfo.parameters s))
                (setStrategyName name st0)) as Hch.
    { intros st0 H0. unfold handleStrategyChange.
      cbn [strategies setStrategyName]. by rewrite H0, Hs. }
    rewrite (Hch st eq_refl).
    rewrite (Hch (handleParamChange paramName value st) eq_refl).
    split_and!; [|done|done]. unfold selectedStrategy. cbn. exact Hs.
  - intros Hnone.
    assert (∀ st0, strategies st0 = strategies st →
              handleStrategyChange name st0 = setStrategyName name st0)
      as Hch.
    { intros st0 H0. unfold handleStrategyChange.
      cbn [strategies setStrategyName]. by rewrite H0, Hnone. }
    rewrite (Hch st eq_refl).
    rewrite (Hch (handleParamChange paramName value st) eq_refl).
    split_and!; [|done..]. unfold selectedStrategy. cbn. exact Hnone.
Qed.

(** X22.  A parameter typed into its input is posted as a string, also
    when its default was a number; under the other keys, and in the other
    fields, the posted job is the one the form would have posted without
    the edit. *)
Theorem edited_parameter_is_posted_as_string (k value : string) st :
  let job := jobOf (handleParamChange k value st) in
  snd (handleSubmit_call (handleParamChange k value st)) =
    [CreateBacktestJob job] ∧
  BacktestJobCreate.strategy_params job !! k = Some (JString value) ∧
  (∀ k', k' ≠ k →
     BacktestJobCreate.strategy_params job !! k' =
     BacktestJobCreate.strategy_params (jobOf st) !! k') ∧
  job = BacktestJobCreate.mk
          (BacktestJobCreate.strategy_name (jobOf st))
          (<[k := JString value]>
             (BacktestJobCreate.strategy_params (jobOf st)))
          (BacktestJobCreate.symbol (jobOf st))
          (BacktestJobCreate.interval (jobOf st))
          (BacktestJobCreate.start_date (jobOf st))
          (BacktestJobCreate.end_date (jobOf st))
          (BacktestJobCreate.initial_capital (jobOf st))
          (BacktestJobCreate.take_profit_pct (jobOf st))
          (BacktestJobCreate.stop_loss_pct (jobOf st)).
Proof.
  cbv zeta. split_and!.
  - done.
  - cbn. apply lookup_insert_eq.
  - intros k' Hk. cbn. by apply lookup_insert_ne.
  - done.
Qed.

(** X23.  A submission posts one job, built from the fields, with a date
    left out exactly when its field is empty.  When the answer has
    arrived the button is enabled again and the fields are as before, so
    submitting again posts the same job; [error] is empty exactly after a
    success, and [onSuccess] is called exactly after a success when it is
    given. *)
Theorem handleSubmit_posts_once_and_keeps_fields
    (onSuccess : bool) (answer : Response BacktestJob) st :
  let outcome := handleSubmit onSuccess answer st in
  (∃ rest, snd outcome = CreateBacktestJob (jobOf st) :: rest ∧
           ∀ job, CreateBacktestJob job ∉ rest) ∧
  (BacktestJobCreate.start_date (jobOf st) = None ↔
     startDate st = EmptyString) ∧
  (BacktestJobCreate.end_date (jobOf st) = None ↔ endDate st = EmptyString) ∧
  submitting (fst outcome) = false ∧
  jobOf (fst outcome) = jobOf st ∧
  snd (handleSubmit_call (fst outcome)) = snd (handleSubmit_call st) ∧
  (error (fst outcome) = None ↔ ∃ job, answer = Fulfilled job) ∧
  (OnSuccess ∈ snd outcome ↔
     onSuccess = true ∧ ∃ job, answer = Fulfilled job).
Proof.
  cbv zeta.
  assert (BacktestJobCreate.start_date (jobOf st) = None ↔
          startDate st = EmptyString) as Hstart.
  { unfold jobOf, orUndefined. cbn. by destruct (startDate st). }
  assert (BacktestJobCreate.end_date (jobOf st) = None ↔
          endDate st = EmptyString) as Hend.
  { unfold jobOf, orUndefined. cbn. by destruct (endDate st). }
  unfold handleSubmit, handleSubmit_call.
  destruct answer as [created|err]; cbn [handleSubmit_settle fst snd].
  - split_and!.
    + eexists. split; [done|]. apply not_posted. destruct onSuccess; eauto.
    + exact Hstart.
    + exact Hend.
    + done.
    + done.
    + done.
    + split; [by eauto|done].
    + destruct onSuccess; cbn.
      * split; [by eauto|]. intros _. right. left.
      * split; [|by intros [? _]]. intros Hin.
        repeat (apply elem_of_cons in Hin as [Hin|Hin]; [discriminate Hin|]).
        by apply elem_of_nil in Hin.
  - split_and!.
    + eexists. split; [done|]. apply not_posted. eauto.
    + exact Hstart.
    + exact Hend.
    + done.
    + done.
    + done.
    + split; [done|]. by intros [? ?].
    + split; [|by intros [_ [? ?]]]. intros Hin.
      repeat (apply elem_of_cons in Hin as [Hin|Hin]; [discriminate Hin|]).
      by apply elem_of_nil in Hin.
Qed.
End form.
